(** * The application and model registry of django/core/apps/cache.py

    A shallow embedding of [AppCache]: the registry state is a record, every
    method is a function in a small state-and-exception monad, and the
    collaborators that live outside the file (the settings, the creation of
    an [AppConfig], the execution of a models module) are section
    variables. *)

From stdpp Require Import gmap strings list.
From Stdlib Require Import Ascii String ZArith.

Local Open Scope string_scope.
Local Open Scope Z_scope.

(** ** Python strings *)

Module PyStr.

(** [str.lower] on the ASCII range. *)
Definition lower_ascii (c : ascii) : ascii :=
  let n := nat_of_ascii c in
  if ((65 <=? n) && (n <=? 90))%nat then ascii_of_nat (n + 32) else c.

Fixpoint lower (s : string) : string :=
  match s with
  | EmptyString => EmptyString
  | String c r => String (lower_ascii c) (lower r)
  end.

(** [s.split(sep)] for a one-character separator: the pieces between the
    separators, empty pieces included. [acc] is the piece being read. *)
Fixpoint split_from (sep : ascii) (acc : string) (s : string) : list string :=
  match s with
  | EmptyString => [acc]
  | String c r =>
      if Ascii.eqb c sep then acc :: split_from sep EmptyString r
      else split_from sep (acc +:+ String c EmptyString) r
  end.

Definition split (sep : ascii) (s : string) : list string :=
  split_from sep EmptyString s.

(** [s.rpartition(".")[2]]: what follows the last dot, the whole string when
    there is none. *)
Definition rpartition_tail (s : string) : string :=
  List.last (split "." s) s.

(** [s.split('.')[-2]], [None] standing for the IndexError. *)
Definition split_penultimate (s : string) : option string :=
  match rev (split "." s) with
  | _ :: p :: _ => Some p
  | _ => None
  end.

(** [p.rfind(c)]: the last index of [c] in [p], -1 when absent. *)
Fixpoint rfind_from (c : ascii) (i : Z) (found : Z) (p : list ascii) : Z :=
  match p with
  | [] => found
  | x :: r => rfind_from c (i + 1) (if Ascii.eqb x c then i else found) r
  end.

Definition rfind (c : ascii) (p : list ascii) : Z := rfind_from c 0 (-1) p.

(** [os.path.splitext(p)[0]] (posixpath): the path without the extension
    that starts at the last dot of the last component; leading dots of that
    component do not start an extension. *)
Definition splitext_root (p : string) : string :=
  let l := list_ascii_of_string p in
  let sepIndex := rfind "/" l in
  let dotIndex := rfind "." l in
  if (sepIndex <? dotIndex) then
    let name_to_dot :=
      take (Z.to_nat (dotIndex - (sepIndex + 1))) (drop (Z.to_nat (sepIndex + 1)) l) in
    if existsb (fun c => negb (Ascii.eqb c ".")) name_to_dot
    then string_of_list_ascii (take (Z.to_nat dotIndex) l)
    else p
  else p.

End PyStr.

(** ** Insertion-ordered dictionaries *)

Module OrderedDict.

Section ops.
Context {V : Type}.

Definition t := list (string * V).

Fixpoint get (k : string) (d : list (string * V)) : option V :=
  match d with
  | [] => None
  | (k', v) :: r => if decide (k' = k) then Some v else get k r
  end.

Definition contains (k : string) (d : list (string * V)) : bool :=
  bool_decide (is_Some (get k d)).

(** [d[k] = v]: an existing key keeps its place, a new key goes last. *)
Fixpoint set (k : string) (v : V) (d : list (string * V)) : list (string * V) :=
  match d with
  | [] => [(k, v)]
  | (k', v') :: r => if decide (k' = k) then (k, v) :: r else (k', v') :: set k v r
  end.

(** [del d[k]] and [d.pop(k, None)] once the key is known to be there. *)
Fixpoint remove (k : string) (d : list (string * V)) : list (string * V) :=
  match d with
  | [] => []
  | (k', v') :: r => if decide (k' = k) then r else (k', v') :: remove k r
  end.

Definition keys (d : list (string * V)) : list string := d.*1.
Definition values (d : list (string * V)) : list V := d.*2.

End ops.

End OrderedDict.

Module OD := OrderedDict.

(** ** Data model *)

(** A model class, reduced to what the registry reads of it. [model_id]
    stands for the identity of the class object; [source_file] is
    [os.path.abspath(upath(sys.modules[model.__module__].__file__))]. The
    flags are the truth values of [_deferred], [_meta.auto_created] and
    [_meta.swapped]. *)
Record Model := {
  model_id : nat;
  app_label : string;
  model_name : string;
  _deferred : bool;
  auto_created : bool;
  swapped : bool;
  source_file : string
}.

#[global] Instance Model_eq_dec : EqDecision Model.
Proof. solve_decision. Defined.

(** Modelled from the spec: [AppConfig] (django/core/apps/base.py is not
    part of the sources). An application has a [name], the fully qualified
    import path, and a [label], the short identifier its models are filed
    under. Its [models] attribute is the shared [all_models[label]] mapping
    of the registry, so it is read through the registry (see [models]
    below) instead of being stored a second time. *)
Record AppConfig := {
  name : string;
  label : string
}.

#[global] Instance AppConfig_eq_dec : EqDecision AppConfig.
Proof. solve_decision. Defined.

(** How an import performed for the registry can fail: with the
    [ImportError] that population postpones, or with anything else. *)
Inductive import_failure :=
  | NotImportable
  | Crashed (code : nat).

#[global] Instance import_failure_eq_dec : EqDecision import_failure.
Proof. solve_decision. Defined.

(** The imports a call has performed, oldest first. *)
Inductive Event :=
  | AppCreated (app_name : string)
  | ModelsImported (app_config : AppConfig) (outcome : option import_failure).

(** The key of the [get_models] cache:
    [(app_mod, include_auto_created, include_deferred, only_installed,
    include_swapped)], a module being known by its dotted [__name__]. *)
Abbreviation CacheKey := (option string * bool * bool * bool * bool)%type.

(** The attributes of an [AppCache] instance. [_postponed] is [None] when
    the attribute does not exist. [import_log] is not an attribute: it
    records the imports performed so far, so that statements can count
    them. [_pending_lookups] is left out, no method of the class reads it. *)
Record AppCache := {
  master : bool;
  all_models : list (string * list (string * Model));
  app_configs : list (string * AppConfig);
  available_apps : option (gset string);
  _apps_loaded : bool;
  _models_loaded : bool;
  _postponed : option (list AppConfig);
  _get_models_cache : gmap CacheKey (list Model);
  import_log : list Event
}.

(** [AppCache.__init__]. *)
Definition new_AppCache (master : bool) : AppCache := {|
  master := master;
  all_models := [];
  app_configs := [];
  available_apps := None;
  _apps_loaded := negb master;
  _models_loaded := negb master;
  _postponed := None;
  _get_models_cache := ∅;
  import_log := []
|}.

Definition set_all_models v (st : AppCache) : AppCache :=
  {| master := master st; all_models := v; app_configs := app_configs st;
     available_apps := available_apps st; _apps_loaded := _apps_loaded st;
     _models_loaded := _models_loaded st; _postponed := _postponed st;
     _get_models_cache := _get_models_cache st; import_log := import_log st |}.

Definition set_app_configs v (st : AppCache) : AppCache :=
  {| master := master st; all_models := all_models st; app_configs := v;
     available_apps := available_apps st; _apps_loaded := _apps_loaded st;
     _models_loaded := _models_loaded st; _postponed := _postponed st;
     _get_models_cache := _get_models_cache st; import_log := import_log st |}.

Definition set_available v (st : AppCache) : AppCache :=
  {| master := master st; all_models := all_models st; app_configs := app_configs st;
     available_apps := v; _apps_loaded := _apps_loaded st;
     _models_loaded := _models_loaded st; _postponed := _postponed st;
     _get_models_cache := _get_models_cache st; import_log := import_log st |}.

Definition set_apps_loaded v (st : AppCache) : AppCache :=
  {| master := master st; all_models := all_models st; app_configs := app_configs st;
     available_apps := available_apps st; _apps_loaded := v;
     _models_loaded := _models_loaded st; _postponed := _postponed st;
     _get_models_cache := _get_models_cache st; import_log := import_log st |}.

Definition set_models_loaded v (st : AppCache) : AppCache :=
  {| master := master st; all_models := all_models st; app_configs := app_configs st;
     available_apps := available_apps st; _apps_loaded := _apps_loaded st;
     _models_loaded := v; _postponed := _postponed st;
     _get_models_cache := _get_models_cache st; import_log := import_log st |}.

Definition set_postponed v (st : AppCache) : AppCache :=
  {| master := master st; all_models := all_models st; app_configs := app_configs st;
     available_apps := available_apps st; _apps_loaded := _apps_loaded st;
     _models_loaded := _models_loaded st; _postponed := v;
     _get_models_cache := _get_models_cache st; import_log := import_log st |}.

Definition set_cache v (st : AppCache) : AppCache :=
  {| master := master st; all_models := all_models st; app_configs := app_configs st;
     available_apps := available_apps st; _apps_loaded := _apps_loaded st;
     _models_loaded := _models_loaded st; _postponed := _postponed st;
     _get_models_cache := v; import_log := import_log st |}.

Definition log_event (e : Event) (st : AppCache) : AppCache :=
  {| master := master st; all_models := all_models st; app_configs := app_configs st;
     available_apps := available_apps st; _apps_loaded := _apps_loaded st;
     _models_loaded := _models_loaded st; _postponed := _postponed st;
     _get_models_cache := _get_models_cache st; import_log := import_log st ++ [e] |}.

(** ** Exceptions and the method monad *)

Inductive exn :=
  | RuntimeError (msg : string)
  | ValueError (extra_apps : gset string)
  | ImportError
  | KeyError
  | IndexError
  | UnavailableApp (app_label : string)
  | ModuleFailure (code : nat).

Definition exn_of (f : import_failure) : exn :=
  match f with
  | NotImportable => ImportError
  | Crashed code => ModuleFailure code
  end.

(** A method call ends by returning a value or by raising; the state it
    leaves is known in both cases. *)
Inductive result (A : Type) :=
  | Ok (a : A) (st : AppCache)
  | Raise (e : exn) (st : AppCache).
Arguments Ok {A} a st.
Arguments Raise {A} e st.

Definition state_of {A} (r : result A) : AppCache :=
  match r with Ok _ st => st | Raise _ st => st end.

Definition M (A : Type) : Type := AppCache → result A.

Definition ret {A} (a : A) : M A := fun st => Ok a st.
Definition raise {A} (e : exn) : M A := fun st => Raise e st.
Definition bind {A B} (c : M A) (k : A → M B) : M B := fun st =>
  match c st with
  | Ok a st' => k a st'
  | Raise e st' => Raise e st'
  end.
Definition get : M AppCache := fun st => Ok st st.
Definition modify (f : AppCache → AppCache) : M unit := fun st => Ok tt (f st).

Notation "'do' x <- c ; k" := (bind c (fun x => k))
  (at level 10, x name, c at level 100, k at level 200).
Notation "'run' c ; k" := (bind c (fun _ => k))
  (at level 10, c at level 100, k at level 200).

(** [for x in xs: body(x)], over a list that the body cannot reach. *)
Fixpoint for_each {A} (xs : list A) (body : A → M unit) : M unit :=
  match xs with
  | [] => ret tt
  | x :: rest => run body x; for_each rest body
  end.

(** [try: c  except ImportError: h]. *)
Definition except_ImportError {A} (c : M A) (h : M A) : M A := fun st =>
  match c st with
  | Raise ImportError st' => h st'
  | r => r
  end.

(** [try: c  finally: f]: [f] runs on both exits of [c]; when [f] itself
    raises, its exception replaces the outcome of [c]. *)
Definition try_finally {A} (c : M A) (f : M unit) : M A := fun st =>
  match c st with
  | Ok a st' =>
      match f st' with Ok _ st'' => Ok a st'' | Raise e st'' => Raise e st'' end
  | Raise e st' =>
      match f st' with Ok _ st'' => Raise e st'' | Raise e' st'' => Raise e' st'' end
  end.

(** ** The methods of [AppCache] *)

Section methods.

(** [settings.INSTALLED_APPS]. *)
Variable INSTALLED_APPS : list string.

(** Modelled from the spec: [AppConfig.create] (base.py is not part of the
    sources) resolves a configured application name into its [AppConfig],
    or fails. *)
Variable AppConfig_create : string → import_failure + AppConfig.

(** Modelled from the spec: what executing the models module of an
    application does (base.py and the models modules are not part of the
    sources). The module defines model classes, each of which reaches the
    registry through [register_model(app_label, model)], and the import
    then succeeds or fails; both may depend on what the registry holds at
    that moment. *)
Variable models_module :
  AppConfig → AppCache → list (string * Model) * option import_failure.

(** [self.all_models[app_label]]: [all_models] is a [defaultdict], reading a
    missing label files an empty mapping under it. *)
Definition all_models_getitem (app_label : string) : M (list (string * Model)) :=
  fun st =>
    match OD.get app_label (all_models st) with
    | Some models => Ok models st
    | None => Ok [] (set_all_models (all_models st ++ [(app_label, [])]) st)
    end.

Definition register_model (app_label : string) (model : Model) : M unit :=
  let model_name := model_name model in
  do models <- all_models_getitem app_label;
  let store : M unit :=
    run modify (fun st =>
      set_all_models (OD.set app_label (OD.set model_name model models) (all_models st)) st);
    modify (set_cache ∅) in
  match OD.get model_name models with
  | Some registered =>
      let fname1 := source_file model in
      let fname2 := source_file registered in
      if decide (PyStr.splitext_root fname1 = PyStr.splitext_root fname2)
      then ret tt
      else store
  | None => store
  end.

(** Modelled from the spec: [AppConfig.import_models(all_models)] imports
    the models unit of the application into the shared mapping. *)
Definition import_models (app_config : AppConfig) : M unit :=
  do st <- get;
  let '(registrations, outcome) := models_module app_config st in
  run for_each registrations (fun r => register_model r.1 r.2);
  run modify (log_event (ModelsImported app_config outcome));
  match outcome with
  | None => ret tt
  | Some failure => raise (exn_of failure)
  end.

(** [app_config.models]: the mapping bound by [import_models]. *)
Definition models (app_config : AppConfig) (st : AppCache) : list (string * Model) :=
  default [] (OD.get (label app_config) (all_models st)).

Definition create (app_name : string) : M AppConfig :=
  run modify (log_event (AppCreated app_name));
  match AppConfig_create app_name with
  | inr app_config => ret app_config
  | inl failure => raise (exn_of failure)
  end.

Definition populate_apps : M unit :=
  do st <- get;
  if _apps_loaded st then ret tt else
  (* with import_lock(): *)
  do st <- get;
  if _apps_loaded st then ret tt else
  if negb (bool_decide (app_configs st = [])) then
    raise (RuntimeError "populate_apps() isn't reentrant")
  else
    run for_each INSTALLED_APPS (fun app_name =>
      do app_config <- create app_name;
      modify (fun st =>
        set_app_configs (OD.set (label app_config) app_config (app_configs st)) st));
    modify (set_apps_loaded true).

(** [self._postponed.append(app_config)]. *)
Definition postpone (app_config : AppConfig) : M unit :=
  modify (fun st => set_postponed ((.++ [app_config]) <$> _postponed st) st).

Definition populate_models : M unit :=
  do st <- get;
  if _models_loaded st then ret tt else
  (* with import_lock(): *)
  do st <- get;
  if _models_loaded st then ret tt else
  run populate_apps;
  do st <- get;
  let outermost := negb (bool_decide (is_Some (_postponed st))) in
  run (if outermost then modify (set_postponed (Some [])) else ret tt);
  do st <- get;
  run for_each (OD.values (app_configs st)) (fun app_config =>
    except_ImportError
      (run all_models_getitem (label app_config);
       import_models app_config)
      (postpone app_config));
  if outermost then
    do st <- get;
    run for_each (default [] (_postponed st)) (fun app_config =>
      run all_models_getitem (label app_config);
      import_models app_config);
    run modify (set_postponed None);
    modify (set_models_loaded true)
  else ret tt.

Definition app_cache_ready : M bool :=
  do st <- get; ret (_models_loaded st).

(** [name in self.available_apps] under [self.available_apps is not None]. *)
Definition is_available (st : AppCache) (app_config : AppConfig) : bool :=
  match available_apps st with
  | Some available => bool_decide (name app_config ∈ available)
  | None => true
  end.

(** [get_app_configs()], with [only_with_models_module] at its default. *)
Definition get_app_configs : M (list AppConfig) :=
  run populate_apps;
  do st <- get;
  ret (List.filter (is_available st) (OD.values (app_configs st))).

(** [[m for m in model_list
      if self.app_configs[m._meta.app_label].name in self.available_apps]];
    [None] is the KeyError of a model whose label has no app config. *)
Fixpoint only_available (configs : list (string * AppConfig)) (available : gset string)
    (model_list : list Model) : option (list Model) :=
  match model_list with
  | [] => Some []
  | m :: rest =>
      match OD.get (app_label m) configs with
      | None => None
      | Some app_config =>
          match only_available configs available rest with
          | None => None
          | Some kept =>
              Some (if bool_decide (name app_config ∈ available) then m :: kept else kept)
          end
      end
  end.

(** [if not self.master: only_installed = False]. *)
Definition effective_only_installed (st : AppCache) (only_installed : bool) : bool :=
  if master st then only_installed else false.

(** The three exclusion tests of [get_models]. *)
Definition selected (include_auto_created include_deferred include_swapped : bool)
    (model : Model) : bool :=
  (negb (_deferred model) || include_deferred) &&
  (negb (auto_created model) || include_auto_created) &&
  (negb (swapped model) || include_swapped).

(** The filter that ends both paths of [get_models]:
    [if self.available_apps is not None and only_installed: model_list = [...]]. *)
Definition restrict_available (only_installed : bool) (model_list : list Model)
    : M (list Model) :=
  do st <- get;
  match available_apps st with
  | Some available =>
      if only_installed then
        match only_available (app_configs st) available model_list with
        | Some kept => ret kept
        | None => raise KeyError
        end
      else ret model_list
  | None => ret model_list
  end.

(** [get_models] from [self.populate_models()] on: the path of a cache
    miss. [only_installed] is the effective value, [cache_key] the key
    built from it. *)
Definition compute_models (cache_key : CacheKey) (app_mod : option string)
    (include_auto_created include_deferred only_installed include_swapped : bool)
    : M (list Model) :=
  run populate_models;
  do model_dicts <-
    match app_mod with
    | Some module_name =>
        match PyStr.split_penultimate module_name with
        | None => raise IndexError
        | Some app_label =>
            if only_installed then
              do st <- get;
              match OD.get app_label (app_configs st) with
              | Some app_config => ret [models app_config st]
              | None => ret []
              end
            else
              do d <- all_models_getitem app_label; ret [d]
        end
    | None =>
        do st <- get;
        if only_installed then
          ret (List.map (fun app_config => models app_config st) (OD.values (app_configs st)))
        else ret (OD.values (all_models st))
    end;
  let model_list :=
    List.flat_map (fun model_dict =>
      List.filter (selected include_auto_created include_deferred include_swapped)
        (OD.values model_dict)) model_dicts in
  run modify (fun st => set_cache (<[cache_key := model_list]> (_get_models_cache st)) st);
  restrict_available only_installed model_list.

Definition get_models (app_mod : option string)
    (include_auto_created include_deferred only_installed include_swapped : bool)
    : M (list Model) :=
  do st <- get;
  let only_installed := effective_only_installed st only_installed in
  let cache_key : CacheKey :=
    (app_mod, include_auto_created, include_deferred, only_installed, include_swapped) in
  let compute :=
    compute_models cache_key app_mod
      include_auto_created include_deferred only_installed include_swapped in
  match _get_models_cache st !! cache_key with
  | Some model_list =>
      (* try: ... return model_list  except KeyError: pass *)
      fun st' =>
        match restrict_available only_installed model_list st' with
        | Raise KeyError st'' => compute st''
        | r => r
        end
  | None => compute
  end.

Definition get_model (app_label model_name : string) (only_installed : bool)
    : M (option Model) :=
  do st <- get;
  let only_installed := effective_only_installed st only_installed in
  run populate_models;
  let lookup : M (option Model) :=
    do d <- all_models_getitem app_label;
    ret (OD.get (PyStr.lower model_name) d) in
  if only_installed then
    do st <- get;
    match OD.get app_label (app_configs st) with
    | None => ret None
    | Some app_config =>
        if negb (is_available st app_config) then raise (UnavailableApp app_label)
        else lookup
    end
  else lookup.

Definition has_app (app_name : string) : M (option AppConfig) :=
  do st <- get;
  match OD.get (PyStr.rpartition_tail app_name) (app_configs st) with
  | Some app_config =>
      if decide (name app_config = app_name) then ret (Some app_config) else ret None
  | None => ret None
  end.

Definition has_model (app_label model_name : string) : M (option Model) :=
  do d <- all_models_getitem app_label;
  ret (OD.get (PyStr.lower model_name) d).

Definition set_available_apps (available : list string) : M unit :=
  do st <- get;
  if bool_decide (is_Some (available_apps st)) then
    raise (RuntimeError "set_available_apps() may be called only once in a row; make sure it's paired with unset_available_apps()")
  else
    let available : gset string := list_to_set available in
    do configs <- get_app_configs;
    let installed : gset string := list_to_set (List.map name configs) in
    if negb (bool_decide (available ⊆ installed)) then
      raise (ValueError (available ∖ installed))
    else modify (set_available (Some available)).

Definition unset_available_apps : M unit :=
  modify (set_available None).

(** *** The scoped changes kept for the tests *)

Definition _begin_with_app (app_name : string) : M (option AppConfig) :=
  do app_config <- create app_name;
  do st <- get;
  if OD.contains (label app_config) (app_configs st) then ret None
  else
    run all_models_getitem (label app_config);
    run import_models app_config;
    run modify (fun st =>
      set_app_configs (OD.set (label app_config) app_config (app_configs st)) st);
    run modify (fun st =>
      set_available ((.∪ {[name app_config]}) <$> available_apps st) st);
    ret (Some app_config).

Definition _end_with_app (app_config : option AppConfig) : M unit :=
  match app_config with
  | None => ret tt
  | Some app_config =>
      do st <- get;
      if OD.contains (label app_config) (app_configs st) then
        run modify (fun st =>
          set_app_configs (OD.remove (label app_config) (app_configs st)) st);
        modify (fun st =>
          set_available ((.∖ {[name app_config]}) <$> available_apps st) st)
      else raise KeyError
  end.

Definition _with_app {A} (app_name : string) (work : M A) : M A :=
  do app_config <- _begin_with_app app_name;
  try_finally work (_end_with_app app_config).

Definition _begin_without_app (app_name : string) : M (option AppConfig) :=
  do st <- get;
  let key := PyStr.rpartition_tail app_name in
  match OD.get key (app_configs st) with
  | Some app_config =>
      run modify (set_app_configs (OD.remove key (app_configs st)));
      ret (Some app_config)
  | None => ret None
  end.

Definition _end_without_app (app_config : option AppConfig) : M unit :=
  match app_config with
  | None => ret tt
  | Some app_config =>
      modify (fun st =>
        set_app_configs (OD.set (label app_config) app_config (app_configs st)) st)
  end.

Definition _without_app {A} (app_name : string) (work : M A) : M A :=
  do app_config <- _begin_without_app app_name;
  try_finally work (_end_without_app app_config).




End methods.

(** ** Observations used in the statements *)

(** [c] leaves the observation [f] of the state as it found it, whether it
    returns or raises. *)
Definition preserves {A B} (f : AppCache → B) (c : M A) : Prop :=
  ∀ st, f (state_of (c st)) = f st.

(** Which attributes an observation does not depend on. *)
Definition ignores_all_models {B} (f : AppCache → B) :=
  ∀ v st, f (set_all_models v st) = f st.
Definition ignores_cache {B} (f : AppCache → B) :=
  ∀ v st, f (set_cache v st) = f st.
Definition ignores_log {B} (f : AppCache → B) :=
  ∀ e st, f (log_event e st) = f st.
Definition ignores_app_configs {B} (f : AppCache → B) :=
  ∀ v st, f (set_app_configs v st) = f st.
Definition ignores_apps_loaded {B} (f : AppCache → B) :=
  ∀ v st, f (set_apps_loaded v st) = f st.
Definition ignores_models_loaded {B} (f : AppCache → B) :=
  ∀ v st, f (set_models_loaded v st) = f st.
Definition ignores_postponed {B} (f : AppCache → B) :=
  ∀ v st, f (set_postponed v st) = f st.

(** [c] called [n] times in a row. *)
Fixpoint repeat_call (n : nat) (c : M unit) : M unit :=
  match n with
  | O => ret tt
  | S k => run c; repeat_call k c
  end.

(** ** A small project, for the examples

    Two applications. The models module of [proj.a] refers to the [book]
    model of [proj.b] and cannot be imported before it is registered. *)

Module Demo.

Definition INSTALLED_APPS : list string := ["proj.a"; "proj.b"].

Definition app (app_name : string) : AppConfig :=
  {| name := app_name; label := PyStr.rpartition_tail app_name |}.

Definition AppConfig_create (app_name : string) : import_failure + AppConfig :=
  inr (app app_name).

Definition author : Model :=
  {| model_id := 1; app_label := "a"; model_name := "author";
     _deferred := false; auto_created := false; swapped := false;
     source_file := "/srv/proj/a/models.py" |}.

Definition book : Model :=
  {| model_id := 2; app_label := "b"; model_name := "book";
     _deferred := false; auto_created := false; swapped := false;
     source_file := "/srv/proj/b/models.py" |}.

Definition is_registered (app_label model_name : string) (st : AppCache) : bool :=
  bool_decide (is_Some (OD.get model_name (default [] (OD.get app_label (all_models st))))).

Definition models_module (app_config : AppConfig) (st : AppCache)
    : list (string * Model) * option import_failure :=
  if decide (label app_config = "a") then
    if is_registered "b" "book" st then ([("a", author)], None)
    else ([], Some NotImportable)
  else if decide (label app_config = "b") then ([("b", book)], None)
  else ([], None).

(** The master registry before and after population. *)
Definition fresh : AppCache := new_AppCache true.

Definition populated : AppCache :=
  state_of (populate_models INSTALLED_APPS AppConfig_create models_module fresh).

End Demo.

(** The outcome [r] of a call with [g] applied to the state it leaves. *)
Definition map_state {A} (g : AppCache → AppCache) (r : result A) : result A :=
  match r with
  | Ok a st => Ok a (g st)
  | Raise e st => Raise e (g st)
  end.

(** [self.all_models[app_label].get(model_name)], read without filing an
    empty mapping under a missing label. *)
Definition registered (app_label model_name : string) (st : AppCache) : option Model :=
  OD.get model_name (default [] (OD.get app_label (all_models st))).

(** Everything of the registry but the models, the lookup cache and the
    log of imports: what registering a model leaves alone. *)
Definition control (st : AppCache) :=
  (master st, app_configs st, available_apps st,
   _apps_loaded st, _models_loaded st, _postponed st).

(** A pass of model imports, as the app configs imported with the outcome
    of each import, and the entries it leaves in the log. *)
Definition import_events (imports : list (AppConfig * option import_failure))
    : list Event :=
  (λ p, ModelsImported p.1 p.2) <$> imports.

(** The app configs of a pass whose import raised ImportError. *)
Definition postponed_among (imports : list (AppConfig * option import_failure))
    : list AppConfig :=
  (filter (λ p, p.2 = Some NotImportable) imports).*1.

Section passes_defs.
Variable models_module :
  AppConfig → AppCache → list (string * Model) * option import_failure.

(** The body of both loops of [populate_models]:
    [all_models = self.all_models[app_config.label];
     app_config.import_models(all_models)]. *)
Definition import_step (app_config : AppConfig) : M unit :=
  run all_models_getitem (label app_config);
  import_models models_module app_config.

(** The body of the first loop, with its [except ImportError]. *)
Definition first_pass_step (app_config : AppConfig) : M unit :=
  except_ImportError (import_step app_config) (postpone app_config).

End passes_defs.

(** [c] raises nothing but exceptions in [P]. *)
Definition raises_only {A} (P : exn → Prop) (c : M A) : Prop :=
  ∀ st e st', c st = Raise e st' → P e.

(** What population can raise: the RuntimeError of [populate_apps] and
    the failures of the imports. *)
Definition population_error (e : exn) : Prop :=
  match e with
  | RuntimeError _ | ImportError | ModuleFailure _ => True
  | _ => False
  end.

(** The mappings [get_models] gathers its list from, read off a state;
    [None] is the IndexError of a module name without a dot. *)
Definition candidate_dicts (app_mod : option string) (only_installed : bool)
    (st : AppCache) : option (list (list (string * Model))) :=
  match app_mod with
  | Some module_name =>
      match PyStr.split_penultimate module_name with
      | None => None
      | Some app_label =>
          Some (if only_installed then
                  match OD.get app_label (app_configs st) with
                  | Some app_config => [models app_config st]
                  | None => []
                  end
                else [default [] (OD.get app_label (all_models st))])
      end
  | None =>
      Some (if only_installed then
              List.map (λ app_config, models app_config st) (OD.values (app_configs st))
            else OD.values (all_models st))
  end.

(** The models of these mappings that pass the three exclusion tests. *)
Definition collect (include_auto_created include_deferred include_swapped : bool)
    (model_dicts : list (list (string * Model))) : list Model :=
  List.flat_map (λ model_dict,
    List.filter (selected include_auto_created include_deferred include_swapped)
      (OD.values model_dict)) model_dicts.

(** [self.app_configs[m._meta.app_label].name in self.available_apps], for
    a model whose label has an app config. *)
Definition owner_available (configs : list (string * AppConfig)) (available : gset string)
    (m : Model) : bool :=
  match OD.get (app_label m) configs with
  | Some app_config => bool_decide (name app_config ∈ available)
  | None => false
  end.

(** The models whose label has an app config: on these the filter of
    [get_models] raises no KeyError. *)
Definition all_owned (configs : list (string * AppConfig)) (model_list : list Model)
    : Prop :=
  Forall (λ m, is_Some (OD.get (app_label m) configs)) model_list.

(** The value a call returned, [None] when it raised. *)
Definition returned {A} (r : result A) : option A :=
  match r with
  | Ok a _ => Some a
  | Raise _ _ => None
  end.

(** The exception a call raised, if it raised. *)
Definition raised {A} (r : result A) : option exn :=
  match r with
  | Ok _ _ => None
  | Raise e _ => Some e
  end.

(** ** The rest of the module *)

(** [register_models(app_label, *models)]; the deprecation warning it
    emits is not modelled. *)
Definition register_models (app_label : string) (models : list Model) : M unit :=
  for_each models (register_model app_label).

Module PyPath.

(** [sep.join(parts)]. *)
Fixpoint join (sep : string) (parts : list string) : string :=
  match parts with
  | [] => ""
  | [p] => p
  | p :: rest => p +:+ sep +:+ join sep rest
  end.

(** [s.startswith(prefix)] and [s.endswith(suffix)]. *)
Definition startswith (prefix s : string) : bool :=
  bool_decide (list_ascii_of_string prefix `prefix_of` list_ascii_of_string s).

Definition endswith (suffix s : string) : bool :=
  bool_decide (list_ascii_of_string suffix `suffix_of` list_ascii_of_string s).

(** [s[:-k]] for a positive [k]. *)
Definition drop_last (k : nat) (s : string) : string :=
  let l := list_ascii_of_string s in
  string_of_list_ascii (take (List.length l - k) l).

(** [os.path.join(a, b)] (posixpath). *)
Definition path_join (a b : string) : string :=
  if startswith "/" b then b
  else if String.eqb a "" || endswith "/" a then a +:+ b
  else a +:+ "/" +:+ b.

End PyPath.

(** [_get_app_package(app)], on the [__name__] of the module:
    ['.'.join(app.__name__.split('.')[:-1])]. *)
Definition _get_app_package (module_name : string) : string :=
  PyPath.join "." (removelast (PyStr.split "." module_name)).

(** A name without a dot: the last segment of a dotted path. *)
Definition dot_free (s : string) : Prop := "."%char ∉ list_ascii_of_string s.

(** The comment on [app_cache_ready]: a populated registry has its apps
    populated. *)
Definition ready_implies_apps (st : AppCache) : Prop :=
  _models_loaded st = true → _apps_loaded st = true.

(** Every list in the lookup cache holds only models that pass the
    exclusion tests of its key. *)
Definition cache_sound (st : AppCache) : Prop :=
  ∀ app_mod iac idf oi isw model_list,
    _get_models_cache st !! (app_mod, iac, idf, oi, isw) = Some model_list →
    Forall (λ m, selected iac idf isw m = true) model_list.

(** The registry after [models[model_name] = model] and the clearing of
    the lookup cache, the two statements that end [register_model]. *)
Definition with_model (app_label : string) (model : Model) (st : AppCache) : AppCache :=
  let filed := state_of (all_models_getitem app_label st) in
  set_cache ∅
    (set_all_models
       (OD.set app_label
          (OD.set (model_name model) model
             (default [] (OD.get app_label (all_models st))))
          (all_models filed))
       filed).

(** Whether [register_model] takes the registration for a second import
    of a model it has. *)
Definition known_again (app_label : string) (model : Model) (st : AppCache) : bool :=
  match registered app_label (model_name model) st with
  | Some old =>
      bool_decide (PyStr.splitext_root (source_file model)
                   = PyStr.splitext_root (source_file old))
  | None => false
  end.

(** The lookup cache is as it was or has been emptied. *)
Definition cache_kept_or_cleared (st st' : AppCache) : Prop :=
  _get_models_cache st' = _get_models_cache st ∨ _get_models_cache st' = ∅.

(** The state [c] leaves is related by [R] to the state it found. *)
Definition steps {A} (R : AppCache → AppCache → Prop) (c : M A) : Prop :=
  ∀ st, R st (state_of (c st)).

(** ** django/core/management/__init__.py: the commands of a project *)

Module Management.

(** What the functions read of their environment: the directory listing
    ([None] is the OSError of [os.listdir]), the directory of the core
    management package ([__path__[0]]), [settings.configured], and the
    [name] and [path] of the app configs that [apps.get_app_configs()]
    yields, in order. *)
Record Env := {
  listdir : string → option (list string);
  core_path : string;
  configured : bool;
  app_configs_of : list (string * string)
}.

Definition find_commands (env : Env) (management_dir : string) : list string :=
  let command_dir := PyPath.path_join management_dir "commands" in
  match listdir env command_dir with
  | Some files =>
      List.map (PyPath.drop_last 3)
        (List.filter (λ f, negb (PyPath.startswith "_" f) && PyPath.endswith ".py" f)
           files)
  | None => []
  end.

(** [{name: owner for name in names}]. *)
Definition owned_by (owner : string) (names : list string) : gmap string string :=
  list_to_map ((λ name, (name, owner)) <$> names).

(** The body of [get_commands]; [commands.update(d)] is [d ∪ commands]. *)
Definition compute_commands (env : Env) : gmap string string :=
  let commands := owned_by "django.core" (find_commands env (core_path env)) in
  if negb (configured env) then commands
  else
    foldl (λ commands app_config,
             let path := PyPath.path_join app_config.2 "management" in
             owned_by app_config.1 (find_commands env path) ∪ commands)
      commands (rev (app_configs_of env)).

(** [get_commands] under [lru_cache(maxsize=None)]: the dictionary of the
    first call is kept and returned by every later call. The first
    component is the dictionary returned, the second the cache after the
    call. *)
Definition get_commands (cache : option (gmap string string)) (env : Env)
    : gmap string string * option (gmap string string) :=
  match cache with
  | Some commands => (commands, Some commands)
  | None => let commands := compute_commands env in (commands, Some commands)
  end.

(** The first app config, in the order of [apps.get_app_configs()], whose
    management directory holds the command. *)
Fixpoint first_owner (env : Env) (configs : list (string * string)) (name : string)
    : option string :=
  match configs with
  | [] => None
  | app_config :: rest =>
      if bool_decide (name ∈ find_commands env (PyPath.path_join app_config.2 "management"))
      then Some app_config.1
      else first_owner env rest name
  end.

End Management.

(** ** A project that does not load, for the examples *)

Module Broken.

(** [proj.b] cannot be created. *)
Definition AppConfig_create (app_name : string) : import_failure + AppConfig :=
  if decide (app_name = "proj.b") then inl (Crashed 1) else inr (Demo.app app_name).

(** The models module of [proj.b] raises something that is no ImportError. *)
Definition models_module (app_config : AppConfig) (st : AppCache)
    : list (string * Model) * option import_failure :=
  if decide (label app_config = "b") then ([], Some (Crashed 7)) else ([], None).

End Broken.

(** ** A project whose first load fails, for the examples *)

Module Flaky.

(** Whether the models module of the app of this label was imported
    before, with whatever outcome. *)
Definition imported_before (app_label : string) (st : AppCache) : bool :=
  existsb (λ event,
    match event with
    | ModelsImported app_config _ => bool_decide (label app_config = app_label)
    | AppCreated _ => false
    end) (import_log st).

(** The models module of [proj.b] raises something that is no ImportError
    the first time it is imported, and loads from then on. *)
Definition models_module (app_config : AppConfig) (st : AppCache)
    : list (string * Model) * option import_failure :=
  if decide (label app_config = "b") then
    if imported_before "b" st then ([("b", Demo.book)], None)
    else ([], Some (Crashed 7))
  else ([], None).

End Flaky.

(** ** A registry that is not the master, for the examples *)

Module Detached.

(** A registry of its own, as a test builds one: not the master, given the
    app [proj.b] with its models, and then restricted to no app at all. *)
Definition registry : AppCache :=
  state_of
    ((run _begin_with_app Demo.AppConfig_create Demo.models_module "proj.b";
      set_available_apps Demo.INSTALLED_APPS Demo.AppConfig_create [])
       (new_AppCache false)).

End Detached.

(** A project with commands, for the examples. *)

Module CommandsDemo.

Definition listdir (dir : string) : option (list string) :=
  if decide (dir = "/django/core/management/commands") then
    Some ["__init__.py"; "runserver.py"; "shell.py"; "README"]
  else if decide (dir = "/srv/proj/a/management/commands") then
    Some ["__init__.py"; "shell.py"; "import_books.py"]
  else if decide (dir = "/srv/proj/b/management/commands") then
    Some ["import_books.py"; "_helpers.py"]
  else None.

Definition env : Management.Env :=
  {| Management.listdir := listdir;
     Management.core_path := "/django/core/management";
     Management.configured := true;
     Management.app_configs_of := [("proj.a", "/srv/proj/a"); ("proj.b", "/srv/proj/b")] |}.

End CommandsDemo.


Local Open Scope list_scope.
(** ** Frame reasoning: what a call leaves alone *)

Section frames.
Context {B : Type} (f : AppCache → B).

Lemma preserves_ret {A} (a : A) : preserves f (ret a).
Proof. by intros st. Qed.

Lemma preserves_raise {A} (e : exn) : preserves f (@raise A e).
Proof. by intros st. Qed.

Lemma preserves_get : preserves f get.
Proof. by intros st. Qed.

Lemma preserves_modify (g : AppCache → AppCache) :
  (∀ st, f (g st) = f st) → preserves f (modify g).
Proof. intros Hg st. apply Hg. Qed.

Lemma preserves_bind {A C} (c : M A) (k : A → M C) :
  preserves f c → (∀ a, preserves f (k a)) → preserves f (bind c k).
Proof.
  intros Hc Hk st. unfold bind. specialize (Hc st).
  destruct (c st) as [a st'|e st']; simpl in *; [|done].
  by rewrite Hk.
Qed.

Lemma preserves_for_each {A} (xs : list A) (body : A → M unit) :
  (∀ x, preserves f (body x)) → preserves f (for_each xs body).
Proof.
  intros Hbody. induction xs as [|x rest IH]; simpl.
  - apply preserves_ret.
  - apply preserves_bind; [apply Hbody | intros _; apply IH].
Qed.

Lemma preserves_except {A} (c h : M A) :
  preserves f c → preserves f h → preserves f (except_ImportError c h).
Proof.
  intros Hc Hh st. unfold except_ImportError. specialize (Hc st).
  destruct (c st) as [a st'|e st']; simpl in *; [done|].
  destruct e; simpl; try done. by rewrite Hh.
Qed.

Lemma preserves_try_finally {A} (c : M A) (fin : M unit) :
  preserves f c → preserves f fin → preserves f (try_finally c fin).
Proof.
  intros Hc Hf st. unfold try_finally. specialize (Hc st).
  destruct (c st) as [a st'|e st']; simpl in *;
    specialize (Hf st'); destruct (fin st'); simpl in *; congruence.
Qed.

End frames.

Ltac frame_step :=
  first
    [ apply preserves_ret
    | apply preserves_raise
    | apply preserves_get
    | apply preserves_modify; intros; reflexivity
    | apply preserves_bind; [|intros ?]
    | apply preserves_for_each; intros ?
    | apply preserves_except
    | apply preserves_try_finally
    | match goal with
      | |- preserves _ (if ?b then _ else _) => destruct b
      | |- preserves _ (match ?x with _ => _ end) => destruct x
      end ].

Ltac frame := repeat frame_step.

Section method_frames.
Context {B : Type} (f : AppCache → B).
Variable INSTALLED_APPS : list string.
Variable AppConfig_create : string → import_failure + AppConfig.
Variable models_module :
  AppConfig → AppCache → list (string * Model) * option import_failure.

Lemma all_models_getitem_preserves app_label :
  ignores_all_models f → preserves f (all_models_getitem app_label).
Proof.
  intros H st. unfold all_models_getitem.
  destruct (OD.get app_label (all_models st)); simpl; [done | apply H].
Qed.

Lemma register_model_preserves app_label model :
  ignores_all_models f → ignores_cache f → preserves f (register_model app_label model).
Proof.
  intros Hm Hc. unfold register_model.
  apply preserves_bind; [by apply all_models_getitem_preserves | intros models].
  assert (preserves f
    (run modify (λ st, set_all_models
        (OD.set app_label (OD.set (model_name model) model models) (all_models st)) st);
     modify (set_cache ∅))) as Hstore.
  { apply preserves_bind; [|intros _]; apply preserves_modify; intros; [apply Hm | apply Hc]. }
  destruct (OD.get (model_name model) models); [|done].
  destruct (decide _); [apply preserves_ret | done].
Qed.

Lemma import_models_preserves app_config :
  ignores_all_models f → ignores_cache f → ignores_log f →
  preserves f (import_models models_module app_config).
Proof.
  intros Hm Hc Hl. unfold import_models.
  apply preserves_bind; [apply preserves_get | intros st].
  destruct (models_module app_config st) as [registrations outcome].
  apply preserves_bind; [|intros _].
  { apply preserves_for_each. intros r. by apply register_model_preserves. }
  apply preserves_bind; [by apply preserves_modify | intros _].
  destruct outcome; [apply preserves_raise | apply preserves_ret].
Qed.

Lemma create_preserves app_name :
  ignores_log f → preserves f (create AppConfig_create app_name).
Proof.
  intros Hl. unfold create.
  apply preserves_bind; [by apply preserves_modify | intros _].
  destruct (AppConfig_create app_name); [apply preserves_raise | apply preserves_ret].
Qed.

Lemma populate_apps_preserves :
  ignores_log f → ignores_app_configs f → ignores_apps_loaded f →
  preserves f (populate_apps INSTALLED_APPS AppConfig_create).
Proof.
  intros Hl Ha Hf. unfold populate_apps.
  apply preserves_bind; [apply preserves_get | intros st].
  destruct (_apps_loaded st); [apply preserves_ret|].
  apply preserves_bind; [apply preserves_get | intros st'].
  destruct (_apps_loaded st'); [apply preserves_ret|].
  destruct (negb _); [apply preserves_raise|].
  apply preserves_bind; [|intros _; by apply preserves_modify].
  apply preserves_for_each. intros app_name.
  apply preserves_bind; [by apply create_preserves | intros cfg].
  apply preserves_modify. intros. apply Ha.
Qed.

Lemma populate_models_preserves :
  ignores_log f → ignores_app_configs f → ignores_apps_loaded f →
  ignores_all_models f → ignores_cache f → ignores_postponed f → ignores_models_loaded f →
  preserves f (populate_models INSTALLED_APPS AppConfig_create models_module).
Proof.
  intros Hl Ha Hf Hm Hc Hp Hml. unfold populate_models.
  apply preserves_bind; [apply preserves_get | intros st].
  destruct (_models_loaded st); [apply preserves_ret|].
  apply preserves_bind; [apply preserves_get | intros st'].
  destruct (_models_loaded st'); [apply preserves_ret|].
  apply preserves_bind; [by apply populate_apps_preserves | intros _].
  apply preserves_bind; [apply preserves_get | intros st1].
  apply preserves_bind; [|intros _].
  { destruct (negb _); [by apply preserves_modify | apply preserves_ret]. }
  apply preserves_bind; [apply preserves_get | intros st2].
  assert (∀ cfg, preserves f
    (run all_models_getitem (label cfg); import_models models_module cfg)) as Himp.
  { intros cfg. apply preserves_bind; [by apply all_models_getitem_preserves | intros _].
    by apply import_models_preserves. }
  apply preserves_bind; [|intros _].
  { apply preserves_for_each. intros cfg. apply preserves_except; [apply Himp|].
    apply preserves_modify. intros. apply Hp. }
  destruct (negb _); [|apply preserves_ret].
  apply preserves_bind; [apply preserves_get | intros st3].
  apply preserves_bind; [by apply preserves_for_each | intros _].
  apply preserves_bind; [by apply preserves_modify | intros _].
  by apply preserves_modify.
Qed.

End method_frames.

(** ** Inversion of sequenced calls *)

Lemma bind_Ok {A B} (c : M A) (k : A → M B) st b st' :
  bind c k st = Ok b st' → ∃ a s, c st = Ok a s ∧ k a s = Ok b st'.
Proof.
  unfold bind. destruct (c st) as [a s|e s]; [|done]. intros H. by exists a, s.
Qed.

Lemma bind_Raise {A B} (c : M A) (k : A → M B) st e st' :
  bind c k st = Raise e st' →
  c st = Raise e st' ∨ ∃ a s, c st = Ok a s ∧ k a s = Raise e st'.
Proof.
  unfold bind. destruct (c st) as [a s|e0 s]; intros H.
  - right. by exists a, s.
  - injection H as -> ->. by left.
Qed.

Ltac mred := unfold ret, raise, modify, get in *; simpl in *.

Lemma repeat_call_noop (c : M unit) st n :
  c st = Ok tt st → repeat_call n c st = Ok tt st.
Proof.
  intros Hc. induction n as [|n IH]; simpl; [done|].
  unfold bind. by rewrite Hc.
Qed.

(** ** Population *)

Section population.
Variable INSTALLED_APPS : list string.
Variable AppConfig_create : string → import_failure + AppConfig.
Variable models_module :
  AppConfig → AppCache → list (string * Model) * option import_failure.

Abbreviation pop_apps := (populate_apps INSTALLED_APPS AppConfig_create).
Abbreviation pop_models := (populate_models INSTALLED_APPS AppConfig_create models_module).

Lemma populate_apps_loaded st :
  _apps_loaded st = true → pop_apps st = Ok tt st.
Proof. intros H. unfold populate_apps, bind, get. simpl. by rewrite H. Qed.

Lemma populate_models_loaded st :
  _models_loaded st = true → pop_models st = Ok tt st.
Proof. intros H. unfold populate_models, bind, get. simpl. by rewrite H. Qed.

Lemma populate_apps_sets_flag st st' :
  pop_apps st = Ok tt st' → _apps_loaded st' = true.
Proof.
  unfold populate_apps, bind at 1 2, get.
  destruct (_apps_loaded st) eqn:Hl; [mred; by intros [= <-]|].
  mred. rewrite Hl. destruct (negb _); [done|].
  intros ([] & s & _ & Hs)%bind_Ok. by injection Hs as <-.
Qed.

Lemma populate_models_sets_flag st st' :
  _postponed st = None → pop_models st = Ok tt st' → _models_loaded st' = true.
Proof.
  intros Hp. unfold populate_models, bind at 1 2, get.
  destruct (_models_loaded st) eqn:Hl; [mred; by intros [= <-]|].
  mred. rewrite Hl. intros ([] & s0 & Happs & H)%bind_Ok.
  assert (_postponed s0 = None) as Hp0.
  { pose proof (populate_apps_preserves _postponed INSTALLED_APPS AppConfig_create) as Hf.
    specialize (Hf ltac:(done) ltac:(done) ltac:(done) st).
    rewrite Happs in Hf. simpl in Hf. congruence. }
  unfold bind at 1, get in H. rewrite Hp0 in H. simpl in H.
  apply bind_Ok in H as ([] & s1 & _ & H).
  apply bind_Ok in H as (s2 & s2' & _ & H).
  apply bind_Ok in H as ([] & s3 & _ & H).
  apply bind_Ok in H as (s4 & s4' & _ & H).
  apply bind_Ok in H as ([] & s5 & _ & H).
  apply bind_Ok in H as ([] & s6 & _ & H).
  by injection H as <-.
Qed.

(** C6: population of the apps attempted on a registry that is not
    populated yet but already holds app configs raises RuntimeError at
    once: the registry, its flag and the log of imports are as before, no
    configured application name has been resolved. *)
Theorem populate_apps_not_reentrant st :
  _apps_loaded st = false → app_configs st ≠ [] →
  populate_apps INSTALLED_APPS AppConfig_create st
  = Raise (RuntimeError "populate_apps() isn't reentrant") st.
Proof.
  intros Hl Hne. unfold populate_apps, bind, get. simpl.
  by rewrite !Hl, bool_decide_eq_false_2.
Qed.

(** C7, as the code has it: once [populate_apps], or a [populate_models]
    call that found no postponed buffer (an outermost call), has returned
    normally, any number of further calls return at once and leave the
    whole registry, log of imports included, exactly as it was. *)
Theorem population_idempotent st st' n :
  (populate_apps INSTALLED_APPS AppConfig_create st = Ok tt st' →
   repeat_call n (populate_apps INSTALLED_APPS AppConfig_create) st' = Ok tt st') ∧
  (_postponed st = None →
   populate_models INSTALLED_APPS AppConfig_create models_module st = Ok tt st' →
   repeat_call n (populate_models INSTALLED_APPS AppConfig_create models_module) st'
   = Ok tt st').
Proof.
  split.
  - intros H. apply repeat_call_noop, populate_apps_loaded.
    by eapply populate_apps_sets_flag.
  - intros Hp H. apply repeat_call_noop, populate_models_loaded.
    by eapply populate_models_sets_flag.
Qed.

End population.

Lemma populate_apps_not_reentrant_witness :
  let st := set_app_configs [("a", Demo.app "proj.a")] Demo.fresh in
  populate_apps Demo.INSTALLED_APPS Demo.AppConfig_create st
  = Raise (RuntimeError "populate_apps() isn't reentrant") st.
Proof.
  intros st.
  apply (populate_apps_not_reentrant Demo.INSTALLED_APPS Demo.AppConfig_create st).
  - reflexivity.
  - discriminate.
Defined.

Lemma population_idempotent_witness :
  repeat_call 3
    (populate_models Demo.INSTALLED_APPS Demo.AppConfig_create Demo.models_module)
    Demo.populated
  = Ok tt Demo.populated.
Proof.
  apply (population_idempotent Demo.INSTALLED_APPS Demo.AppConfig_create
           Demo.models_module Demo.fresh Demo.populated 3).
  - reflexivity.
  - vm_compute. reflexivity.
Defined.

(** C7 as stated fails for [populate_models]: a call that finds a
    postponed buffer returns normally without setting the flag, and the
    next call imports the models modules again. First a call made while an
    outer population is under way (the buffer exists, nothing else was
    done): it returns normally, the flag stays unset, and the call after it
    imports both modules once more and registers a model. Then the calls
    that follow a load that raised: the first call raises and leaves the
    buffer, the second returns normally with the flag unset, the third
    imports both modules again. *)
Lemma populate_models_inner_call_repeats :
  let pm := populate_models Demo.INSTALLED_APPS Demo.AppConfig_create in
  let st :=
    set_postponed (Some [])
      (state_of (populate_apps Demo.INSTALLED_APPS Demo.AppConfig_create Demo.fresh)) in
  let st' := state_of (pm Demo.models_module st) in
  let st'' := state_of (pm Demo.models_module st') in
  let s1 := state_of (pm Flaky.models_module Demo.fresh) in
  let s2 := state_of (pm Flaky.models_module s1) in
  let s3 := state_of (pm Flaky.models_module s2) in
  (returned (pm Demo.models_module st) = Some tt ∧
   _models_loaded st' = false ∧
   returned (pm Demo.models_module st') = Some tt ∧
   registered "a" "author" st' = None ∧
   registered "a" "author" st'' = Some Demo.author ∧
   import_log st''
   = import_log st' ++ [ModelsImported (Demo.app "proj.a") None;
                        ModelsImported (Demo.app "proj.b") None]) ∧
  (raised (pm Flaky.models_module Demo.fresh) = Some (ModuleFailure 7) ∧
   _postponed s1 = Some [] ∧
   returned (pm Flaky.models_module s1) = Some tt ∧
   _models_loaded s2 = false ∧
   returned (pm Flaky.models_module s2) = Some tt ∧
   import_log s3
   = import_log s2 ++ [ModelsImported (Demo.app "proj.a") None;
                       ModelsImported (Demo.app "proj.b") None]).
Proof. vm_compute. by repeat split. Qed.

(** ** The two passes of [populate_models] *)

Section passes.
Variable INSTALLED_APPS : list string.
Variable AppConfig_create : string → import_failure + AppConfig.
Variable models_module :
  AppConfig → AppCache → list (string * Model) * option import_failure.

Lemma register_model_returns app_label model st :
  ∃ st', register_model app_label model st = Ok tt st'.
Proof.
  unfold register_model, bind, all_models_getitem, modify, ret.
  destruct (OD.get app_label (all_models st)) as [models|]; simpl.
  - destruct (OD.get (model_name model) models); [destruct (decide _)|]; by eexists.
  - by eexists.
Qed.

Lemma registrations_return (registrations : list (string * Model)) st :
  ∃ st', for_each registrations (λ r, register_model r.1 r.2) st = Ok tt st'.
Proof.
  revert st. induction registrations as [|r rest IH]; intros st; simpl.
  - by eexists.
  - unfold bind. destruct (register_model_returns r.1 r.2 st) as [st' ->]. apply IH.
Qed.

(** One import: the log gains one entry, the rest of the control state
    stays, and the call raises exactly when the module fails. *)
Lemma import_step_spec app_config st :
  ∃ outcome st',
    import_step models_module app_config st =
      match outcome with
      | None => Ok tt st'
      | Some failure => Raise (exn_of failure) st'
      end ∧
    import_log st' = (import_log st ++ [ModelsImported app_config outcome])%list ∧
    control st' = control st.
Proof.
  unfold import_step, import_models, bind at 1.
  pose proof (all_models_getitem_preserves (λ s, (control s, import_log s))
    (label app_config) ltac:(done) st) as Hget.
  destruct (all_models_getitem (label app_config) st) as [d s0|e s0] eqn:Hd.
  2: { unfold all_models_getitem in Hd. by destruct (OD.get _ _). }
  simpl in Hget. apply pair_equal_spec in Hget as [Hc0 Hl0]. unfold bind at 1, get.
  destruct (models_module app_config s0) as [registrations outcome] eqn:Hmod.
  pose proof (preserves_for_each (λ s, (control s, import_log s)) registrations
    (λ r, register_model r.1 r.2)
    ltac:(intros r; by apply register_model_preserves) s0) as Hreg.
  destruct (registrations_return registrations s0) as [s1 Hs1].
  unfold bind at 1. rewrite Hs1 in Hreg |- *. simpl in Hreg.
  apply pair_equal_spec in Hreg as [Hc1 Hl1].
  exists outcome, (log_event (ModelsImported app_config outcome) s1).
  split; [by destruct outcome|].
  split.
  - simpl. by rewrite Hl1, Hl0.
  - transitivity (control s1); [done | congruence].
Qed.

Lemma postpone_run app_config st buffer :
  _postponed st = Some buffer →
  postpone app_config st = Ok tt (set_postponed (Some (buffer ++ [app_config])) st).
Proof. intros H. unfold postpone, modify. by rewrite H. Qed.

Lemma for_each_cons {X} (x : X) (xs : list X) (body : X → M unit) st :
  for_each (x :: xs) body st =
  match body x st with
  | Ok _ st' => for_each xs body st'
  | Raise e st' => Raise e st'
  end.
Proof. done. Qed.

Lemma first_pass_step_spec app_config st buffer :
  _postponed st = Some buffer →
  ∃ outcome st',
    first_pass_step models_module app_config st =
      match outcome with
      | None => Ok tt st'
      | Some NotImportable => Ok tt (set_postponed (Some (buffer ++ [app_config])) st')
      | Some (Crashed code) => Raise (ModuleFailure code) st'
      end ∧
    import_log st' = import_log st ++ [ModelsImported app_config outcome] ∧
    _postponed st' = Some buffer ∧
    _models_loaded st' = _models_loaded st.
Proof.
  intros Hbuf.
  destruct (import_step_spec app_config st) as (outcome & st1 & Hstep & Hlog & Hctl).
  injection Hctl as _ _ _ _ Hml Hpp.
  exists outcome, st1. split; [|split; [done | split; congruence]].
  unfold first_pass_step, except_ImportError. rewrite Hstep.
  destruct outcome as [[|code]|]; simpl; try done.
  apply postpone_run. congruence.
Qed.

(** The first pass, run with a buffer present: every app config is
    imported once, in order; an ImportError is never propagated, the app
    config is appended to the buffer; anything else ends the pass. *)
Lemma first_pass_spec configs : ∀ st buffer,
  _postponed st = Some buffer →
  ∃ imports,
    let r := for_each configs (first_pass_step models_module) st in
    import_log (state_of r) = import_log st ++ import_events imports ∧
    _postponed (state_of r) = Some (buffer ++ postponed_among imports) ∧
    _models_loaded (state_of r) = _models_loaded st ∧
    match r with
    | Ok _ _ =>
        imports.*1 = configs ∧
        Forall (λ p, p.2 = None ∨ p.2 = Some NotImportable) imports
    | Raise e _ =>
        ∃ before app_config code after,
          imports = before ++ [(app_config, Some (Crashed code))] ∧
          e = ModuleFailure code ∧
          configs = before.*1 ++ app_config :: after ∧
          Forall (λ p, p.2 = None ∨ p.2 = Some NotImportable) before
    end.
Proof.
  induction configs as [|cfg rest IH]; intros st buffer Hbuf.
  - exists []. simpl. unfold import_events, postponed_among. simpl.
    rewrite !app_nil_r. done.
  - destruct (first_pass_step_spec cfg st buffer Hbuf)
      as (outcome & st1 & Hstep & Hlog & Hpp & Hml).
    cbv zeta. rewrite for_each_cons, Hstep.
    destruct outcome as [[|code]|]; cbv beta iota.
    + (* ImportError: postponed *)
      destruct (IH (set_postponed (Some (buffer ++ [cfg])) st1) (buffer ++ [cfg]))
        as (imports & HIH); [done|].
      exists ((cfg, Some NotImportable) :: imports).
      cbv zeta in HIH. revert HIH.
      generalize (for_each rest (first_pass_step models_module)
                    (set_postponed (Some (buffer ++ [cfg])) st1)).
      intros r (Hlog' & Hbuf' & Hml' & Hres).
      rewrite Hlog', Hbuf', Hml'. simpl. rewrite Hlog, Hml.
      unfold import_events, postponed_among. rewrite filter_cons_True by done.
      simpl. rewrite <- !app_assoc. simpl. do 3 (split; [done|]).
      destruct r as [[] s|e s].
      * destruct Hres as [<- Hall]. split; [done|]. constructor; [by right | done].
      * destruct Hres as (before & c & k & after & -> & -> & -> & Hall).
        exists ((cfg, Some NotImportable) :: before), c, k, after.
        split_and!; try done. constructor; [by right | done].
    + (* anything else ends the pass *)
      exists [(cfg, Some (Crashed code))]. simpl.
      unfold import_events, postponed_among.
      rewrite filter_cons_False by (simpl; congruence). simpl.
      rewrite app_nil_r, Hlog, Hml, Hpp. do 3 (split; [done|]).
      by exists [], cfg, code, rest.
    + (* imported *)
      destruct (IH st1 buffer) as (imports & HIH); [done|].
      exists ((cfg, None) :: imports).
      cbv zeta in HIH. revert HIH.
      generalize (for_each rest (first_pass_step models_module) st1).
      intros r (Hlog' & Hbuf' & Hml' & Hres).
      rewrite Hlog', Hbuf', Hml', Hlog, Hml.
      unfold import_events, postponed_among.
      rewrite filter_cons_False by (simpl; congruence).
      simpl. rewrite <- !app_assoc. simpl. do 3 (split; [done|]).
      destruct r as [[] s|e s].
      * destruct Hres as [<- Hall]. split; [done|]. constructor; [by left | done].
      * destruct Hres as (before & c & k & after & -> & -> & -> & Hall).
        exists ((cfg, None) :: before), c, k, after.
        split_and!; try done. constructor; [by left | done].
Qed.

(** The retry pass: the app configs are imported once each, in order, up
    to the first failure, whose exception is the one raised. *)
Lemma retry_pass_spec configs : ∀ st,
  ∃ imports,
    let r := for_each configs (import_step models_module) st in
    import_log (state_of r) = import_log st ++ import_events imports ∧
    _models_loaded (state_of r) = _models_loaded st ∧
    _postponed (state_of r) = _postponed st ∧
    match r with
    | Ok _ _ => imports.*1 = configs ∧ Forall (λ p, p.2 = None) imports
    | Raise e _ =>
        ∃ before app_config failure after,
          imports = before ++ [(app_config, Some failure)] ∧
          e = exn_of failure ∧
          configs = before.*1 ++ app_config :: after ∧
          Forall (λ p, p.2 = None) before
    end.
Proof.
  induction configs as [|cfg rest IH]; intros st.
  - exists []. simpl. unfold import_events. simpl. by rewrite app_nil_r.
  - destruct (import_step_spec cfg st) as (outcome & st1 & Hstep & Hlog & Hctl).
    injection Hctl as _ _ _ _ Hml Hpp.
    cbv zeta. rewrite for_each_cons, Hstep.
    destruct outcome as [failure|]; cbv beta iota.
    + exists [(cfg, Some failure)]. simpl. unfold import_events. simpl.
      rewrite Hlog, Hml, Hpp. do 3 (split; [done|]).
      by exists [], cfg, failure, rest.
    + destruct (IH st1) as (imports & HIH).
      exists ((cfg, None) :: imports).
      cbv zeta in HIH. revert HIH.
      generalize (for_each rest (import_step models_module) st1).
      intros r (Hlog' & Hml' & Hpp' & Hres).
      rewrite Hlog', Hml', Hpp', Hlog, Hml, Hpp. unfold import_events. simpl.
      rewrite <- !app_assoc. simpl. do 3 (split; [done|]).
      destruct r as [[] s|e s].
      * destruct Hres as [<- Hall]. split; [done|]. by constructor.
      * destruct Hres as (before & c & f & after & -> & -> & -> & Hall).
        exists ((cfg, None) :: before), c, f, after.
        split_and!; try done. by constructor.
Qed.

Lemma populate_models_run st st0 :
  _models_loaded st = false →
  populate_apps INSTALLED_APPS AppConfig_create st = Ok tt st0 →
  populate_models INSTALLED_APPS AppConfig_create models_module st =
  let outermost := negb (bool_decide (is_Some (_postponed st0))) in
  let st1 := if outermost then set_postponed (Some []) st0 else st0 in
  match for_each (OD.values (app_configs st1)) (first_pass_step models_module) st1 with
  | Ok _ st2 =>
      if outermost then
        match
          for_each (default [] (_postponed st2)) (import_step models_module) st2
        with
        | Ok _ st3 => Ok tt (set_models_loaded true (set_postponed None st3))
        | Raise e st3 => Raise e st3
        end
      else Ok tt st2
  | Raise e st2 => Raise e st2
  end.
Proof.
  intros Hl Happs.
  unfold populate_models, first_pass_step, import_step, bind, get, modify, ret.
  simpl. rewrite !Hl, Happs.
  destruct (negb (bool_decide (is_Some (_postponed st0)))); simpl.
  - destruct (for_each _ _ _) as [[] st2|e st2]; [|done].
    by destruct (for_each _ _ _) as [[] st3|e st3].
  - by destruct (for_each _ _ _) as [[] st2|e st2].
Qed.

(** C1: with the apps populated (state [st0]), [populate_models] imports
    the models of every app config once, in declared order, and an import
    that raises ImportError is postponed instead of propagated. A call that
    finds no buffer then imports each postponed app config once, in order;
    the first failure of that retry is raised as it is, with the flag
    still unset and the buffer still there; when all retries succeed, the
    flag is set and the buffer discarded. A call that finds a buffer
    appends to it, performs no retry and leaves the flag unset. *)
Theorem populate_models_two_passes st st0 :
  _models_loaded st = false →
  populate_apps INSTALLED_APPS AppConfig_create st = Ok tt st0 →
  let configs := OD.values (app_configs st0) in
  let r := populate_models INSTALLED_APPS AppConfig_create models_module st in
  (_postponed st = None →
   ∃ pass1 pass2,
     import_log (state_of r)
       = import_log st0 ++ import_events pass1 ++ import_events pass2 ∧
     match r with
     | Ok _ st' =>
         pass1.*1 = configs ∧
         Forall (λ p, p.2 = None ∨ p.2 = Some NotImportable) pass1 ∧
         pass2.*1 = postponed_among pass1 ∧
         Forall (λ p, p.2 = None) pass2 ∧
         _models_loaded st' = true ∧ _postponed st' = None
     | Raise e st' =>
         _models_loaded st' = false ∧
         _postponed st' = Some (postponed_among pass1) ∧
         ((∃ before app_config code after,
             pass1 = before ++ [(app_config, Some (Crashed code))] ∧
             e = ModuleFailure code ∧
             configs = before.*1 ++ app_config :: after ∧
             pass2 = []) ∨
          (pass1.*1 = configs ∧
           ∃ before app_config failure after,
             pass2 = before ++ [(app_config, Some failure)] ∧
             e = exn_of failure ∧
             postponed_among pass1 = before.*1 ++ app_config :: after ∧
             Forall (λ p, p.2 = None) before))
     end) ∧
  (∀ buffer, _postponed st = Some buffer →
   ∃ pass1,
     import_log (state_of r) = import_log st0 ++ import_events pass1 ∧
     _postponed (state_of r) = Some (buffer ++ postponed_among pass1) ∧
     _models_loaded (state_of r) = false ∧
     match r with
     | Ok _ _ => pass1.*1 = configs
     | Raise e _ =>
         ∃ before app_config code after,
           pass1 = before ++ [(app_config, Some (Crashed code))] ∧
           e = ModuleFailure code ∧
           configs = before.*1 ++ app_config :: after
     end).
Proof.
  intros Hl Happs configs r.
  pose proof (populate_apps_preserves (λ s, (_postponed s, _models_loaded s))
    INSTALLED_APPS AppConfig_create ltac:(done) ltac:(done) ltac:(done) st) as Hframe.
  rewrite Happs in Hframe. simpl in Hframe. injection Hframe as Hpp0 Hml0.
  rewrite Hl in Hml0.
  pose proof (populate_models_run st st0 Hl Happs) as Hrun. cbv zeta in Hrun.
  subst r. rewrite Hrun. clear Hrun. split.
  - intros Hnone. rewrite Hnone in Hpp0. rewrite Hpp0.
    rewrite bool_decide_eq_false_2 by (by intros [? ?]).
    cbv beta iota delta [negb].
    destruct (first_pass_spec (OD.values (app_configs st0))
                (set_postponed (Some []) st0) [] eq_refl) as (pass1 & H1).
    cbv zeta in H1. revert H1.
    change (app_configs (set_postponed (Some []) st0)) with (app_configs st0).
    generalize (for_each (OD.values (app_configs st0)) (first_pass_step models_module)
                  (set_postponed (Some []) st0)).
    intros r1 (Hlog1 & Hbuf1 & Hml1 & Hres1).
    destruct r1 as [[] st2|e st2]; simpl in Hlog1, Hbuf1, Hml1.
    + destruct Hres1 as [Hcfg1 Hall1]. rewrite Hbuf1. simpl default.
      destruct (retry_pass_spec (postponed_among pass1) st2) as (pass2 & H2).
      cbv zeta in H2. revert H2.
      generalize (for_each (postponed_among pass1) (import_step models_module) st2).
      intros r2 (Hlog2 & Hml2 & Hpp2 & Hres2).
      exists pass1, pass2.
      destruct r2 as [[] st3|e st3]; simpl in Hlog2, Hml2, Hpp2; simpl.
      * rewrite Hlog2, Hlog1, <- app_assoc. destruct Hres2 as [Hcfg2 Hall2]. done.
      * rewrite Hlog2, Hlog1, <- app_assoc. split; [done|].
        split; [congruence|]. split; [by rewrite Hpp2, Hbuf1|]. right. done.
    + exists pass1, []. simpl. change (import_events []) with (@nil Event). rewrite app_nil_r.
      split; [done|]. split; [congruence|]. split; [done|]. left.
      destruct Hres1 as (before & c & k & after & -> & -> & Hcfg & _).
      by exists before, c, k, after.
  - intros buffer Hbuf. rewrite Hbuf in Hpp0. rewrite Hpp0.
    rewrite bool_decide_eq_true_2 by (by eexists).
    cbv beta iota delta [negb].
    destruct (first_pass_spec (OD.values (app_configs st0)) st0 buffer Hpp0)
      as (pass1 & H1).
    cbv zeta in H1. revert H1.
    generalize (for_each (OD.values (app_configs st0)) (first_pass_step models_module) st0).
    intros r1 (Hlog1 & Hbuf1 & Hml1 & Hres1).
    exists pass1.
    destruct r1 as [[] st2|e st2]; simpl in *.
    + destruct Hres1 as [Hcfg1 _]. split_and!; try done. congruence.
    + split_and!; try done; [congruence|].
      destruct Hres1 as (before & c & k & after & -> & -> & Hcfg & _).
      by exists before, c, k, after.
Qed.

End passes.

Lemma populate_models_two_passes_witness :
  let st0 :=
    state_of (populate_apps Demo.INSTALLED_APPS Demo.AppConfig_create Demo.fresh) in
  let r :=
    populate_models Demo.INSTALLED_APPS Demo.AppConfig_create Demo.models_module
      Demo.fresh in
  ∃ pass1 pass2,
    import_log (state_of r)
      = import_log st0 ++ import_events pass1 ++ import_events pass2 ∧
    pass1.*1 = [Demo.app "proj.a"; Demo.app "proj.b"] ∧
    pass2.*1 = postponed_among pass1.
Proof.
  intros st0 r.
  destruct (populate_models_two_passes Demo.INSTALLED_APPS Demo.AppConfig_create
              Demo.models_module Demo.fresh st0) as [Houter _].
  - reflexivity.
  - vm_compute. reflexivity.
  - destruct Houter as (pass1 & pass2 & Hlog & Hres); [reflexivity|].
    exists pass1, pass2. split; [exact Hlog|].
    assert (populate_models Demo.INSTALLED_APPS Demo.AppConfig_create
              Demo.models_module Demo.fresh = Ok tt Demo.populated) as Hrun
      by (vm_compute; reflexivity).
    rewrite Hrun in Hres. destruct Hres as (H1 & _ & H2 & _).
    split; [|exact H2]. rewrite H1. vm_compute. reflexivity.
Defined.

(** ** Ordered dictionaries *)

Section ordered_dict.
Context {V : Type}.
Implicit Types d : list (string * V).

Lemma od_get_set_eq k v d : OD.get k (OD.set k v d) = Some v.
Proof.
  induction d as [|[k' v'] d IH]; simpl.
  - by rewrite decide_True.
  - destruct (decide (k' = k)) as [->|Hne]; simpl.
    + by rewrite decide_True.
    + by rewrite decide_False.
Qed.

Lemma od_get_set_ne k k' v d : k ≠ k' → OD.get k' (OD.set k v d) = OD.get k' d.
Proof.
  intros Hne. induction d as [|[k0 v0] d IH]; simpl.
  - by rewrite decide_False.
  - destruct (decide (k0 = k)) as [->|Hne0]; simpl.
    + by rewrite !decide_False.
    + destruct (decide (k0 = k')); [done | apply IH].
Qed.

Lemma od_keys_set_present k v d :
  is_Some (OD.get k d) → OD.keys (OD.set k v d) = OD.keys d.
Proof.
  unfold OD.keys. induction d as [|[k' v'] d IH]; simpl.
  - by intros [? ?].
  - destruct (decide (k' = k)) as [->|Hne]; simpl; [done|].
    intros H. f_equal. by apply IH.
Qed.

Lemma od_set_absent k v d : OD.get k d = None → OD.set k v d = (d ++ [(k, v)])%list.
Proof.
  induction d as [|[k' v'] d IH]; simpl; [done|].
  destruct (decide (k' = k)); [done|]. intros H. by rewrite IH.
Qed.

Lemma od_get_remove_ne k k' d : k ≠ k' → OD.get k' (OD.remove k d) = OD.get k' d.
Proof.
  intros Hne. induction d as [|[k0 v0] d IH]; simpl; [done|].
  destruct (decide (k0 = k)) as [->|Hne0]; simpl.
  - by rewrite decide_False.
  - destruct (decide (k0 = k')); [done | apply IH].
Qed.

Lemma od_get_remove_eq k d : NoDup (OD.keys d) → OD.get k (OD.remove k d) = None.
Proof.
  unfold OD.keys. induction d as [|[k0 v0] d IH]; simpl; [done|].
  intros [Hnot Hd]%NoDup_cons.
  destruct (decide (k0 = k)) as [->|Hne]; simpl.
  - clear IH Hd. induction d as [|[k1 v1] d IH]; simpl; [done|].
    destruct (decide (k1 = k)) as [->|?].
    + exfalso. apply Hnot. simpl. left.
    + apply IH. intros Hin. apply Hnot. simpl. by right.
  - rewrite decide_False by done. by apply IH.
Qed.


Lemma od_contains_get k d : OD.contains k d = bool_decide (is_Some (OD.get k d)).
Proof. done. Qed.

End ordered_dict.

(** ** Registration *)

Lemma all_models_getitem_present app_label models st :
  OD.get app_label (all_models st) = Some models →
  all_models_getitem app_label st = Ok models st.
Proof. intros H. unfold all_models_getitem. by rewrite H. Qed.

Lemma set_all_models_same st : set_all_models (all_models st) st = st.
Proof. by destruct st. Qed.

(** The state after [models[model_name] = model] and the clearing of the
    cache. *)
Lemma register_model_stores app_label model models st :
  OD.get app_label (all_models st) = Some models →
  (∀ old, OD.get (model_name model) models = Some old →
     PyStr.splitext_root (source_file model) ≠ PyStr.splitext_root (source_file old)) →
  register_model app_label model st =
  Ok tt (set_cache ∅ (set_all_models
    (OD.set app_label (OD.set (model_name model) model models) (all_models st)) st)).
Proof.
  intros Hm Hdiff. unfold register_model, bind.
  rewrite (all_models_getitem_present _ _ _ Hm).
  destruct (OD.get (model_name model) models) as [old|] eqn:Hold; [|done].
  by rewrite decide_False by by apply Hdiff.
Qed.

(** C2, as the code has it: when a model of the same name is already filed
    under the label, a registration from the same source file (extension
    apart) returns without changing anything; a registration from another
    source file replaces the model filed under that name, in place, and
    clears the lookup cache. *)
Theorem register_model_collision app_label model models old st :
  OD.get app_label (all_models st) = Some models →
  OD.get (model_name model) models = Some old →
  (PyStr.splitext_root (source_file model) = PyStr.splitext_root (source_file old) →
   register_model app_label model st = Ok tt st) ∧
  (PyStr.splitext_root (source_file model) ≠ PyStr.splitext_root (source_file old) →
   ∃ st', register_model app_label model st = Ok tt st' ∧
     registered app_label (model_name model) st' = Some model ∧
     OD.keys (default [] (OD.get app_label (all_models st'))) = OD.keys models ∧
     OD.keys (all_models st') = OD.keys (all_models st) ∧
     _get_models_cache st' = ∅).
Proof.
  intros Hm Hold. split.
  - intros Hsame. unfold register_model, bind.
    rewrite (all_models_getitem_present _ _ _ Hm), Hold.
    by rewrite decide_True.
  - intros Hdiff. eexists. split.
    { apply register_model_stores; [done|]. intros old' Hold'. congruence. }
    unfold registered. simpl. rewrite od_get_set_eq. simpl.
    rewrite od_get_set_eq.
    by rewrite !od_keys_set_present by by eexists.
Qed.

Lemma register_model_collision_witness :
  let same_again :=
    {| model_id := 7; app_label := "a"; model_name := "author";
       _deferred := false; auto_created := false; swapped := false;
       source_file := "/srv/proj/a/models.pyc" |} in
  register_model "a" same_again Demo.populated = Ok tt Demo.populated.
Proof.
  intros same_again.
  apply (register_model_collision "a" same_again [("author", Demo.author)]
           Demo.author Demo.populated); reflexivity.
Defined.

(** C2 as stated fails: a second model of the same name that comes from
    another source file takes the place of the first. *)
Lemma register_model_first_does_not_win :
  let other :=
    {| model_id := 7; app_label := "a"; model_name := "author";
       _deferred := false; auto_created := false; swapped := false;
       source_file := "/srv/other/a/models.py" |} in
  registered "a" "author" Demo.populated = Some Demo.author ∧
  registered "a" "author" (state_of (register_model "a" other Demo.populated))
    = Some other ∧
  other ≠ Demo.author.
Proof. by vm_compute. Qed.

(** ** Restricting the available apps *)

Section availability.
Variable INSTALLED_APPS : list string.
Variable AppConfig_create : string → import_failure + AppConfig.

Abbreviation setup_apps := (populate_apps INSTALLED_APPS AppConfig_create).
Abbreviation restrict_to := (set_available_apps INSTALLED_APPS AppConfig_create).

Lemma populate_apps_keeps_available st :
  available_apps (state_of (setup_apps st)) = available_apps st.
Proof. by apply populate_apps_preserves. Qed.

Lemma filter_all_available st configs :
  available_apps st = None → List.filter (is_available st) configs = configs.
Proof.
  intros H. unfold is_available. rewrite H.
  induction configs as [|c configs IH]; simpl; [done | by rewrite IH].
Qed.

Lemma unset_after_set available st :
  available_apps st = None →
  unset_available_apps (set_available (Some available) st) = Ok tt st.
Proof. intros H. destruct st. simpl in *. by subst. Qed.

(** C8: [set_available_apps] called while a restriction is active raises
    RuntimeError and changes nothing; called with names that are not all
    installed it raises ValueError carrying exactly the extra names; no
    failing call changes [available_apps]; a successful call makes
    [available_apps] the set of the given names, and
    [unset_available_apps] then gives back the unrestricted registry. *)
Theorem set_available_apps_checked (available : list string) st :
  (is_Some (available_apps st) →
   set_available_apps INSTALLED_APPS AppConfig_create available st =
   Raise (RuntimeError "set_available_apps() may be called only once in a row; make sure it's paired with unset_available_apps()") st) ∧
  (∀ e st', set_available_apps INSTALLED_APPS AppConfig_create available st = Raise e st' →
   available_apps st' = available_apps st) ∧
  (∀ st1, available_apps st = None → populate_apps INSTALLED_APPS AppConfig_create st = Ok tt st1 →
   let requested : gset string := list_to_set available in
   let installed : gset string := list_to_set (name <$> OD.values (app_configs st1)) in
   (requested ⊈ installed →
    set_available_apps INSTALLED_APPS AppConfig_create available st = Raise (ValueError (requested ∖ installed)) st1 ∧
    requested ∖ installed ≠ ∅) ∧
   (requested ⊆ installed →
    set_available_apps INSTALLED_APPS AppConfig_create available st = Ok tt (set_available (Some requested) st1) ∧
    available_apps (set_available (Some requested) st1) = Some requested ∧
    unset_available_apps (set_available (Some requested) st1) = Ok tt st1)).
Proof.
  assert (∀ st1, available_apps st = None → setup_apps st = Ok tt st1 →
    restrict_to available st =
    (let requested : gset string := list_to_set available in
     let installed : gset string := list_to_set (name <$> OD.values (app_configs st1)) in
     if negb (bool_decide (requested ⊆ installed))
     then Raise (ValueError (requested ∖ installed)) st1
     else Ok tt (set_available (Some requested) st1))) as Hrun.
  { intros st1 Hnone Happs.
    pose proof (populate_apps_keeps_available st) as Hav.
    rewrite Happs in Hav. simpl in Hav. rewrite Hnone in Hav.
    unfold set_available_apps, get_app_configs, bind, get. simpl.
    rewrite Hnone. simpl. rewrite Happs. simpl.
    rewrite (filter_all_available st1) by done.
    by destruct (negb _). }
  split; [|split].
  - intros [av Hav]. unfold set_available_apps, bind, get. simpl.
    rewrite Hav. by rewrite bool_decide_eq_true_2.
  - intros e st' Hraise.
    destruct (available_apps st) as [av|] eqn:Hav.
    + unfold set_available_apps, bind, get in Hraise. simpl in Hraise.
      rewrite Hav in Hraise. rewrite bool_decide_eq_true_2 in Hraise by done.
      injection Hraise as _ <-. done.
    + pose proof (populate_apps_keeps_available st) as Hkeep.
      destruct (setup_apps st) as [[] st1|e1 st1] eqn:Happs.
      * rewrite (Hrun st1) in Hraise by done. simpl in Hraise.
        destruct (negb _); [|done]. injection Hraise as _ <-.
        simpl in Hkeep. congruence.
      * unfold set_available_apps, get_app_configs, bind, get in Hraise.
        simpl in Hraise. rewrite Hav in Hraise. simpl in Hraise.
        rewrite Happs in Hraise. injection Hraise as _ <-.
        simpl in Hkeep. congruence.
  - intros st1 Hnone Happs requested installed.
    pose proof (populate_apps_keeps_available st) as Hav.
    rewrite Happs in Hav. simpl in Hav. rewrite Hnone in Hav.
    split.
    + intros Hnot. rewrite (Hrun st1) by done. simpl.
      fold requested installed.
      rewrite bool_decide_eq_false_2 by done. split; [done|].
      intros Hempty. apply Hnot. intros x Hx.
      destruct (decide (x ∈ installed)) as [|Hout]; [done|].
      assert (x ∈ requested ∖ installed) as Hin by set_solver.
      rewrite Hempty in Hin. set_solver.
    + intros Hsub. rewrite (Hrun st1) by done. simpl.
      fold requested installed.
      rewrite bool_decide_eq_true_2 by done. split; [done|]. split; [done|].
      by apply unset_after_set.
Qed.

End availability.

Lemma set_available_apps_checked_witness :
  set_available_apps Demo.INSTALLED_APPS Demo.AppConfig_create ["proj.a"; "proj.a"]
    Demo.populated
  = Ok tt (set_available (Some {["proj.a"]}) Demo.populated).
Proof.
  destruct (set_available_apps_checked Demo.INSTALLED_APPS Demo.AppConfig_create
              ["proj.a"; "proj.a"] Demo.populated) as (_ & _ & Hrun).
  destruct (Hrun Demo.populated) as [_ Hok].
  - reflexivity.
  - vm_compute. reflexivity.
  - destruct Hok as (Hcall & _ & _).
    + apply (bool_decide_unpack _). vm_compute. exact I.
    + rewrite Hcall. vm_compute. reflexivity.
Defined.

(** ** The scoped changes *)


Lemma try_finally_modify {A} (work : M A) (g : AppCache → AppCache) st :
  try_finally work (modify g) st = map_state g (work st).
Proof. unfold try_finally, modify. by destruct (work st). Qed.


Section contexts.
Variable AppConfig_create : string → import_failure + AppConfig.
Variable models_module :
  AppConfig → AppCache → list (string * Model) * option import_failure.
Context {A : Type} (work : M A).



Lemma without_app_present app_name app_config st :
  OD.get (PyStr.rpartition_tail app_name) (app_configs st) = Some app_config →
  _without_app app_name work st =
  map_state
    (λ s, set_app_configs (OD.set (label app_config) app_config (app_configs s)) s)
    (work (set_app_configs (OD.remove (PyStr.rpartition_tail app_name) (app_configs st)) st)).
Proof.
  intros H. unfold _without_app, _begin_without_app, bind, get. simpl.
  rewrite H. simpl. apply try_finally_modify.
Qed.





End contexts.



(** ** What the calls can raise *)

Section raising.
Context (P : exn → Prop).

Lemma raises_only_ret {A} (a : A) : raises_only P (ret a).
Proof. by intros st e st'. Qed.

Lemma raises_only_get : raises_only P get.
Proof. by intros st e st'. Qed.

Lemma raises_only_modify g : raises_only P (modify g).
Proof. by intros st e st'. Qed.

Lemma raises_only_raise {A} e : P e → raises_only P (@raise A e).
Proof. intros He st e' st' [= <- _]. done. Qed.

Lemma raises_only_bind {A B} (c : M A) (k : A → M B) :
  raises_only P c → (∀ a, raises_only P (k a)) → raises_only P (bind c k).
Proof.
  intros Hc Hk st e st' [H|(a & s & _ & H)]%bind_Raise.
  - by eapply Hc.
  - by eapply Hk.
Qed.

Lemma raises_only_for_each {A} (xs : list A) (body : A → M unit) :
  (∀ x, raises_only P (body x)) → raises_only P (for_each xs body).
Proof.
  intros Hbody. induction xs as [|x rest IH]; simpl.
  - apply raises_only_ret.
  - apply raises_only_bind; [apply Hbody | intros _; apply IH].
Qed.

Lemma raises_only_except {A} (c h : M A) :
  raises_only P c → raises_only P h → raises_only P (except_ImportError c h).
Proof.
  intros Hc Hh st e st'. unfold except_ImportError.
  destruct (c st) as [a s|e0 s] eqn:Hcst; [done|].
  destruct e0; try (intros [= <- _]; by eapply Hc). apply Hh.
Qed.

End raising.

Section population_raises.
Variable INSTALLED_APPS : list string.
Variable AppConfig_create : string → import_failure + AppConfig.
Variable models_module :
  AppConfig → AppCache → list (string * Model) * option import_failure.

Lemma exn_of_population_error failure : population_error (exn_of failure).
Proof. by destruct failure. Qed.

Lemma import_step_raises app_config :
  raises_only population_error (import_step models_module app_config).
Proof.
  intros st e st' H.
  destruct (import_step_spec models_module app_config st)
    as (outcome & s & Hstep & _).
  rewrite Hstep in H. destruct outcome; [|done].
  injection H as <- _. apply exn_of_population_error.
Qed.

Lemma populate_apps_raises :
  raises_only population_error (populate_apps INSTALLED_APPS AppConfig_create).
Proof.
  unfold populate_apps.
  apply raises_only_bind; [apply raises_only_get | intros st].
  destruct (_apps_loaded st); [apply raises_only_ret|].
  apply raises_only_bind; [apply raises_only_get | intros st'].
  destruct (_apps_loaded st'); [apply raises_only_ret|].
  destruct (negb _); [by apply raises_only_raise|].
  apply raises_only_bind; [|intros _; apply raises_only_modify].
  apply raises_only_for_each. intros app_name.
  apply raises_only_bind; [|intros cfg; apply raises_only_modify].
  unfold create. apply raises_only_bind; [apply raises_only_modify | intros _].
  destruct (AppConfig_create app_name).
  - apply raises_only_raise, exn_of_population_error.
  - apply raises_only_ret.
Qed.

Lemma populate_models_raises :
  raises_only population_error
    (populate_models INSTALLED_APPS AppConfig_create models_module).
Proof.
  unfold populate_models.
  apply raises_only_bind; [apply raises_only_get | intros st].
  destruct (_models_loaded st); [apply raises_only_ret|].
  apply raises_only_bind; [apply raises_only_get | intros st'].
  destruct (_models_loaded st'); [apply raises_only_ret|].
  apply raises_only_bind; [apply populate_apps_raises | intros _].
  apply raises_only_bind; [apply raises_only_get | intros st1].
  apply raises_only_bind; [|intros _].
  { destruct (negb _); [apply raises_only_modify | apply raises_only_ret]. }
  apply raises_only_bind; [apply raises_only_get | intros st2].
  apply raises_only_bind; [|intros _].
  { apply raises_only_for_each. intros cfg.
    apply raises_only_except; [apply import_step_raises | apply raises_only_modify]. }
  destruct (negb _); [|apply raises_only_ret].
  apply raises_only_bind; [apply raises_only_get | intros st3].
  apply raises_only_bind; [|intros _].
  { apply raises_only_for_each. intros cfg. apply import_step_raises. }
  apply raises_only_bind; intros; apply raises_only_modify.
Qed.

End population_raises.

(** ** Reading the registry *)

Lemma od_get_app_absent {V} k (v : V) (d : list (string * V)) :
  OD.get k d = None → OD.get k (d ++ [(k, v)]) = Some v.
Proof.
  induction d as [|[k' v'] d IH]; simpl.
  - by rewrite decide_True.
  - destruct (decide (k' = k)); [done | apply IH].
Qed.

Lemma od_get_app_ne {V} k k' (v : V) (d : list (string * V)) :
  k ≠ k' → OD.get k' (d ++ [(k, v)]) = OD.get k' d.
Proof.
  intros Hne. induction d as [|[k0 v0] d IH]; simpl.
  - by rewrite decide_False.
  - destruct (decide (k0 = k')); [done | apply IH].
Qed.

(** Reading [all_models[app_label]] changes no lookup. *)
Lemma all_models_getitem_registered app_label st l k :
  registered l k (state_of (all_models_getitem app_label st)) = registered l k st.
Proof.
  unfold registered, all_models_getitem.
  destruct (OD.get app_label (all_models st)) as [d|] eqn:Hd; simpl; [done|].
  destruct (decide (app_label = l)) as [->|Hne].
  - by rewrite od_get_app_absent, Hd.
  - by rewrite od_get_app_ne.
Qed.

(** Reading [all_models[app_label]] returns what is filed under the label,
    the empty mapping when nothing is, and leaves the mapping filed. *)
Lemma all_models_getitem_spec app_label st :
  ∃ st',
    all_models_getitem app_label st
      = Ok (default [] (OD.get app_label (all_models st))) st' ∧
    OD.get app_label (all_models st')
      = Some (default [] (OD.get app_label (all_models st))) ∧
    (control st', import_log st', _get_models_cache st')
      = (control st, import_log st, _get_models_cache st).
Proof.
  unfold all_models_getitem.
  destruct (OD.get app_label (all_models st)) as [d|] eqn:Hd; simpl.
  - by exists st.
  - eexists. split; [done|]. simpl. split; [|done]. by apply od_get_app_absent.
Qed.

Lemma restrict_available_run only_installed model_list st :
  restrict_available only_installed model_list st =
  match available_apps st with
  | Some available =>
      if only_installed then
        match only_available (app_configs st) available model_list with
        | Some kept => Ok kept st
        | None => Raise KeyError st
        end
      else Ok model_list st
  | None => Ok model_list st
  end.
Proof.
  unfold restrict_available, bind, get.
  destruct (available_apps st); [|done].
  destruct only_installed; [|done].
  by destruct (only_available _ _ _).
Qed.

Lemma restrict_available_state only_installed model_list st :
  state_of (restrict_available only_installed model_list st) = st.
Proof.
  rewrite restrict_available_run.
  destruct (available_apps st); [|done].
  destruct only_installed; [|done].
  by destruct (only_available _ _ _).
Qed.

Lemma restrict_available_off model_list st :
  restrict_available false model_list st = Ok model_list st.
Proof. rewrite restrict_available_run. by destruct (available_apps st). Qed.

Lemma only_available_filter configs available model_list kept :
  only_available configs available model_list = Some kept →
  kept = List.filter (owner_available configs available) model_list ∧
  all_owned configs model_list.
Proof.
  revert kept. induction model_list as [|m rest IH]; simpl; intros kept.
  - intros [= <-]. split; [done | constructor].
  - unfold owner_available at 1.
    destruct (OD.get (app_label m) configs) as [cfg|] eqn:Hcfg; [|done].
    destruct (only_available configs available rest) as [kept'|]; [|done].
    destruct (IH kept' eq_refl) as [-> Hall].
    intros [= <-]. split; [done|]. constructor; [by eexists | done].
Qed.

Lemma only_available_owned configs available model_list :
  all_owned configs model_list →
  only_available configs available model_list
  = Some (List.filter (owner_available configs available) model_list).
Proof.
  induction 1 as [|m rest [cfg Hcfg] Hall IH]; simpl; [done|].
  unfold owner_available at 1. rewrite Hcfg, IH. done.
Qed.

Section lookup.
Variable INSTALLED_APPS : list string.
Variable AppConfig_create : string → import_failure + AppConfig.
Variable models_module :
  AppConfig → AppCache → list (string * Model) * option import_failure.

(** A computed list is gathered from the registry as population leaves
    it, stored under the key as gathered, and only then filtered. *)
Lemma compute_models_spec key app_mod iac idf oi isw st l st' :
  compute_models INSTALLED_APPS AppConfig_create models_module
    key app_mod iac idf oi isw st = Ok l st' →
  ∃ dicts,
    candidate_dicts app_mod oi st' = Some dicts ∧
    _get_models_cache st' !! key = Some (collect iac idf isw dicts) ∧
    restrict_available oi (collect iac idf isw dicts) st' = Ok l st'.
Proof.
  unfold compute_models.
  intros ([] & s1 & _ & H)%bind_Ok.
  apply bind_Ok in H as (dicts & s2 & Hdicts & H).
  apply bind_Ok in H as ([] & s3 & Hstore & H).
  injection Hstore as <-.
  pose proof (restrict_available_state oi
    (List.flat_map (λ d, List.filter (selected iac idf isw) (OD.values d)) dicts)
    (set_cache (<[key := List.flat_map (λ d, List.filter (selected iac idf isw)
       (OD.values d)) dicts]> (_get_models_cache s2)) s2)) as Hst.
  rewrite H in Hst. simpl in Hst. subst st'.
  exists dicts. split; [|split; [simpl; apply lookup_insert_eq | done]].
  unfold candidate_dicts. simpl.
  destruct app_mod as [module_name|].
  - destruct (PyStr.split_penultimate module_name) as [app_label|]; [|done].
    destruct oi.
    + unfold bind, get, ret in Hdicts.
      destruct (OD.get app_label (app_configs s1)) eqn:Hcfg;
        injection Hdicts as <- <-; by rewrite Hcfg.
    + destruct (all_models_getitem_spec app_label s1) as (s & Hget & Hfiled & _).
      unfold bind in Hdicts. rewrite Hget in Hdicts.
      injection Hdicts as <- <-. by rewrite Hfiled.
  - unfold bind, get, ret in Hdicts. destruct oi; by injection Hdicts as <- <-.
Qed.

Lemma get_models_hit app_mod iac idf oi isw st full l :
  _get_models_cache st
    !! (app_mod, iac, idf, effective_only_installed st oi, isw) = Some full →
  restrict_available (effective_only_installed st oi) full st = Ok l st →
  get_models INSTALLED_APPS AppConfig_create models_module
    app_mod iac idf oi isw st = Ok l st.
Proof.
  intros Hhit Hr. unfold get_models, bind, get. cbv beta iota zeta. by rewrite Hhit, Hr.
Qed.

Lemma get_models_miss app_mod iac idf oi isw st :
  _get_models_cache st
    !! (app_mod, iac, idf, effective_only_installed st oi, isw) = None →
  get_models INSTALLED_APPS AppConfig_create models_module
    app_mod iac idf oi isw st
  = compute_models INSTALLED_APPS AppConfig_create models_module
      (app_mod, iac, idf, effective_only_installed st oi, isw)
      app_mod iac idf (effective_only_installed st oi) isw st.
Proof. intros Hmiss. unfold get_models, bind, get. cbv beta iota zeta. by rewrite Hmiss. Qed.

(** Whatever path [get_models] takes, the list it returns is the list
    stored under the key, filtered by the availability filter in the state
    it leaves; after a miss the stored list is a newly gathered one. *)
Lemma get_models_spec app_mod iac idf oi isw st l st' :
  get_models INSTALLED_APPS AppConfig_create models_module
    app_mod iac idf oi isw st = Ok l st' →
  let eoi := effective_only_installed st oi in
  ∃ full,
    _get_models_cache st' !! (app_mod, iac, idf, eoi, isw) = Some full ∧
    restrict_available eoi full st' = Ok l st' ∧
    (_get_models_cache st !! (app_mod, iac, idf, eoi, isw) = None →
     ∃ dicts, candidate_dicts app_mod eoi st' = Some dicts ∧
              full = collect iac idf isw dicts).
Proof.
  intros H eoi. subst eoi. unfold get_models, bind, get in H. cbv beta iota zeta in H.
  destruct (_get_models_cache st !! _) as [cached|] eqn:Hcache.
  - pose proof (restrict_available_state (effective_only_installed st oi) cached st)
      as Hst.
    destruct (restrict_available _ cached st) as [l0 s0|e s0] eqn:Hr;
      simpl in Hst; subst s0.
    + injection H as <- <-. exists cached. by split_and!.
    + destruct e; try done.
      apply compute_models_spec in H as (dicts & Hd & Hc & Hr').
      exists (collect iac idf isw dicts). by split_and!.
  - apply compute_models_spec in H as (dicts & Hd & Hc & Hr').
    exists (collect iac idf isw dicts). split_and!; try done.
    intros _. by exists dicts.
Qed.

Lemma get_models_keeps_master app_mod iac idf oi isw st :
  master (state_of (get_models INSTALLED_APPS AppConfig_create models_module
                      app_mod iac idf oi isw st)) = master st.
Proof.
  assert (∀ key eoi, preserves master
    (compute_models INSTALLED_APPS AppConfig_create models_module
       key app_mod iac idf eoi isw)) as Hcompute.
  { intros key eoi. unfold compute_models.
    apply preserves_bind; [by apply populate_models_preserves | intros _].
    apply preserves_bind; [|intros dicts].
    { destruct app_mod as [module_name|].
      - destruct (PyStr.split_penultimate module_name) as [lbl|];
          [|apply preserves_raise].
        destruct eoi.
        + apply preserves_bind; [apply preserves_get | intros s].
          destruct (OD.get _ _); apply preserves_ret.
        + apply preserves_bind; [by apply all_models_getitem_preserves | intros d].
          apply preserves_ret.
      - apply preserves_bind; [apply preserves_get | intros s].
        destruct eoi; apply preserves_ret. }
    apply preserves_bind; [by apply preserves_modify | intros _].
    intros s. by rewrite restrict_available_state. }
  unfold get_models, bind, get. cbv beta iota zeta.
  destruct (_get_models_cache st !! _) as [cached|]; [|apply Hcompute].
  pose proof (restrict_available_state (effective_only_installed st oi) cached st)
    as Hst.
  destruct (restrict_available _ cached st) as [l0 s0|e s0]; simpl in Hst; subst s0;
    [done|].
  destruct e; try done. apply Hcompute.
Qed.

(** The same, telling the two paths apart: either the call served the
    list it found stored and changed nothing, or it gathered the stored
    list from the registry. *)
Lemma get_models_paths app_mod iac idf oi isw st l st' :
  get_models INSTALLED_APPS AppConfig_create models_module
    app_mod iac idf oi isw st = Ok l st' →
  let eoi := effective_only_installed st oi in
  ∃ full,
    _get_models_cache st' !! (app_mod, iac, idf, eoi, isw) = Some full ∧
    restrict_available eoi full st' = Ok l st' ∧
    ((st' = st ∧ _get_models_cache st !! (app_mod, iac, idf, eoi, isw) = Some full) ∨
     (∃ dicts, candidate_dicts app_mod eoi st' = Some dicts ∧
               full = collect iac idf isw dicts)).
Proof.
  intros H eoi. subst eoi. unfold get_models, bind, get in H. cbv beta iota zeta in H.
  destruct (_get_models_cache st !! _) as [cached|] eqn:Hcache.
  - pose proof (restrict_available_state (effective_only_installed st oi) cached st)
      as Hst.
    destruct (restrict_available _ cached st) as [l0 s0|e s0] eqn:Hr;
      simpl in Hst; subst s0.
    + injection H as <- <-. exists cached. split_and!; try done. by left.
    + destruct e; try done.
      apply compute_models_spec in H as (dicts & Hd & Hc & Hr').
      exists (collect iac idf isw dicts). split_and!; try done. right. by exists dicts.
  - apply compute_models_spec in H as (dicts & Hd & Hc & Hr').
    exists (collect iac idf isw dicts). split_and!; try done. right. by exists dicts.
Qed.

(** On a populated registry a list of installed models is computed
    without touching the registry: it is gathered, stored and filtered. *)
Lemma compute_models_installed_loaded key app_mod iac idf isw st :
  _models_loaded st = true →
  compute_models INSTALLED_APPS AppConfig_create models_module
    key app_mod iac idf true isw st
  = match candidate_dicts app_mod true st with
    | None => Raise IndexError st
    | Some dicts =>
        restrict_available true (collect iac idf isw dicts)
          (set_cache (<[key := collect iac idf isw dicts]> (_get_models_cache st)) st)
    end.
Proof.
  intros Hl. unfold compute_models, bind at 1.
  rewrite populate_models_loaded by done.
  unfold candidate_dicts. destruct app_mod as [module_name|].
  - destruct (PyStr.split_penultimate module_name) as [app_label|]; [|done].
    unfold bind, get, ret, modify.
    by destruct (OD.get app_label (app_configs st)).
  - done.
Qed.


(** With the effective [only_installed] false, [get_model] is population
    followed by the plain lookup, and cannot raise UnavailableApp. *)
Lemma get_model_unchecked app_label model_name oi st :
  effective_only_installed st oi = false →
  get_model INSTALLED_APPS AppConfig_create models_module app_label model_name oi st
  = (run populate_models INSTALLED_APPS AppConfig_create models_module;
     has_model app_label model_name) st ∧
  ∀ l s, get_model INSTALLED_APPS AppConfig_create models_module
           app_label model_name oi st ≠ Raise (UnavailableApp l) s.
Proof.
  intros Heoi.
  assert (get_model INSTALLED_APPS AppConfig_create models_module
            app_label model_name oi st
          = (run populate_models INSTALLED_APPS AppConfig_create models_module;
             has_model app_label model_name) st) as Hget.
  { unfold get_model, bind at 1, get. rewrite Heoi. done. }
  split; [done|].
  intros l s. rewrite Hget. intros [H|(a & s1 & _ & H)]%bind_Raise.
  - by apply populate_models_raises in H.
  - unfold has_model, bind in H.
    destruct (all_models_getitem_spec app_label s1) as (s2 & Hitem & _).
    by rewrite Hitem in H.
Qed.

End lookup.

(** ** Lookups under an availability restriction *)


Lemma effective_only_installed_master st oi :
  master st = true → effective_only_installed st oi = oi.
Proof. unfold effective_only_installed. by intros ->. Qed.

Lemma effective_only_installed_off st oi :
  master st = false ∨ oi = false → effective_only_installed st oi = false.
Proof. unfold effective_only_installed. intros [->| ->]; [done | by destruct (master st)]. Qed.

Section lookup_claims.
Variable INSTALLED_APPS : list string.
Variable AppConfig_create : string → import_failure + AppConfig.
Variable models_module :
  AppConfig → AppCache → list (string * Model) * option import_failure.

(** C5, as the code has it. On the master registry, when a [get_models]
    call with [only_installed] true returns, a list is stored under the
    call's tuple which the call either found there and left alone, cache
    and registry untouched, or gathered from the installed apps' models
    with no regard to [available_apps]; the list returned is that stored
    list, filtered to the models whose app is available when a restriction
    is active. Calling again with the restriction lifted returns the
    stored list whole, and calling again under any restriction returns it
    filtered by that restriction, provided every model of the list has an
    app config; neither call changes the cache. On a registry that is not
    the master the list returned is the stored list, unfiltered. *)
Theorem get_models_filters_after_cache app_mod iac idf isw st :
  (master st = true →
   ∀ l st',
     get_models INSTALLED_APPS AppConfig_create models_module
       app_mod iac idf true isw st = Ok l st' →
     ∃ full,
       _get_models_cache st' !! (app_mod, iac, idf, true, isw) = Some full ∧
       ((st' = st ∧
         _get_models_cache st !! (app_mod, iac, idf, true, isw) = Some full) ∨
        (∃ dicts, candidate_dicts app_mod true st' = Some dicts ∧
                  full = collect iac idf isw dicts)) ∧
       l = match available_apps st' with
           | Some available =>
               List.filter (owner_available (app_configs st') available) full
           | None => full
           end ∧
       get_models INSTALLED_APPS AppConfig_create models_module
         app_mod iac idf true isw (set_available None st')
       = Ok full (set_available None st') ∧
       (all_owned (app_configs st') full → ∀ available,
        get_models INSTALLED_APPS AppConfig_create models_module
          app_mod iac idf true isw (set_available (Some available) st')
        = Ok (List.filter (owner_available (app_configs st') available) full)
             (set_available (Some available) st'))) ∧
  (master st = false →
   ∀ l st',
     get_models INSTALLED_APPS AppConfig_create models_module
       app_mod iac idf true isw st = Ok l st' →
     _get_models_cache st' !! (app_mod, iac, idf, false, isw) = Some l).
Proof.
  split.
  - intros Hm l st' Hcall.
    pose proof (get_models_keeps_master INSTALLED_APPS AppConfig_create models_module
      app_mod iac idf true isw st) as Hmaster.
    rewrite Hcall in Hmaster. simpl in Hmaster. rewrite Hm in Hmaster.
    apply get_models_paths in Hcall as (full & Hcache & Hr & Hpath).
    rewrite (effective_only_installed_master st true Hm) in Hcache, Hr, Hpath.
    exists full. split; [done|]. split; [done|].
    rewrite restrict_available_run in Hr. split_and!.
    + destruct (available_apps st') as [available|]; [|by injection Hr].
      destruct (only_available _ _ _) as [kept|] eqn:Hkept; [|done].
      injection Hr as <-. by apply only_available_filter in Hkept as [-> _].
    + apply get_models_hit with (full := full).
      * change (effective_only_installed (set_available None st') true)
          with (effective_only_installed st' true).
        by rewrite (effective_only_installed_master st' true Hmaster).
      * by rewrite restrict_available_run.
    + intros Howned available. apply get_models_hit with (full := full).
      * change (effective_only_installed (set_available (Some available) st') true)
          with (effective_only_installed st' true).
        by rewrite (effective_only_installed_master st' true Hmaster).
      * change (effective_only_installed (set_available (Some available) st') true)
          with (effective_only_installed st' true).
        rewrite (effective_only_installed_master st' true Hmaster),
          restrict_available_run.
        simpl. by rewrite only_available_owned.
  - intros Hm l st' Hcall.
    apply get_models_spec in Hcall as (full & Hcache & Hr & _).
    rewrite (effective_only_installed_off st true (or_introl Hm)) in Hcache, Hr.
    rewrite restrict_available_off in Hr. by injection Hr as <-.
Qed.

(** C3, as the code has it. On the master registry [get_model] with
    [only_installed] true first populates the models: what population
    raises, [get_model] raises; and when population returns, a label whose
    app config is excluded by [available_apps] makes the call raise
    UnavailableApp, whatever the model name and whether or not such a
    model is registered. On a registry that is not the master the call is
    population followed by the plain lookup in [all_models] and never
    raises UnavailableApp. *)
Theorem get_model_unavailable_first app_label model_name st :
  (master st = true →
   (∀ st1 app_config available,
      populate_models INSTALLED_APPS AppConfig_create models_module st = Ok tt st1 →
      OD.get app_label (app_configs st1) = Some app_config →
      available_apps st1 = Some available →
      name app_config ∉ available →
      get_model INSTALLED_APPS AppConfig_create models_module
        app_label model_name true st
      = Raise (UnavailableApp app_label) st1) ∧
   (∀ e s,
      populate_models INSTALLED_APPS AppConfig_create models_module st = Raise e s →
      get_model INSTALLED_APPS AppConfig_create models_module
        app_label model_name true st
      = Raise e s)) ∧
  (master st = false →
   get_model INSTALLED_APPS AppConfig_create models_module
     app_label model_name true st
   = (run populate_models INSTALLED_APPS AppConfig_create models_module;
      has_model app_label model_name) st ∧
   ∀ l s, get_model INSTALLED_APPS AppConfig_create models_module
            app_label model_name true st ≠ Raise (UnavailableApp l) s).
Proof.
  split.
  - intros Hmaster. split.
    + intros st1 app_config available Hpop Hcfg Hav Hout.
      unfold get_model, bind, get, effective_only_installed. simpl.
      rewrite Hmaster, Hpop. simpl. rewrite Hcfg.
      unfold is_available. rewrite Hav. by rewrite bool_decide_eq_false_2.
    + intros e s Hpop.
      unfold get_model, bind, get, effective_only_installed. simpl.
      by rewrite Hmaster, Hpop.
  - intros Hmaster. apply get_model_unchecked.
    apply effective_only_installed_off. by left.
Qed.

(** C10: when [only_installed] is false, as passed or as forced on a
    registry that is not the master, [get_model] is population followed by
    the plain lookup in [all_models]; it never raises UnavailableApp.
    [get_models] returns a cached list as it is, a gathered list as
    gathered from [all_models], and raises nothing but what population
    raises and the IndexError of a module name without a dot. None of this
    depends on [available_apps]. *)
Theorem only_installed_false_bypasses_availability oi st :
  master st = false ∨ oi = false →
  (∀ app_label model_name,
     get_model INSTALLED_APPS AppConfig_create models_module
       app_label model_name oi st
     = (run populate_models INSTALLED_APPS AppConfig_create models_module;
        has_model app_label model_name) st ∧
     (∀ l s, get_model INSTALLED_APPS AppConfig_create models_module
               app_label model_name oi st ≠ Raise (UnavailableApp l) s) ∧
     (∀ st1,
        populate_models INSTALLED_APPS AppConfig_create models_module st = Ok tt st1 →
        returned (get_model INSTALLED_APPS AppConfig_create models_module
                    app_label model_name oi st)
        = Some (registered app_label (PyStr.lower model_name) st1))) ∧
  (∀ app_mod iac idf isw,
     (∀ full, _get_models_cache st !! (app_mod, iac, idf, false, isw) = Some full →
        get_models INSTALLED_APPS AppConfig_create models_module
          app_mod iac idf oi isw st = Ok full st) ∧
     (∀ l st',
        get_models INSTALLED_APPS AppConfig_create models_module
          app_mod iac idf oi isw st = Ok l st' →
        _get_models_cache st' !! (app_mod, iac, idf, false, isw) = Some l ∧
        (_get_models_cache st !! (app_mod, iac, idf, false, isw) = None →
         ∃ dicts, candidate_dicts app_mod false st' = Some dicts ∧
                  l = collect iac idf isw dicts)) ∧
     (∀ e s,
        get_models INSTALLED_APPS AppConfig_create models_module
          app_mod iac idf oi isw st = Raise e s →
        e = IndexError ∨ population_error e)).
Proof.
  intros Heoi%effective_only_installed_off.
  split.
  - intros app_label model_name.
    destruct (get_model_unchecked INSTALLED_APPS AppConfig_create models_module
                app_label model_name oi st Heoi) as [Hget Hnever].
    split; [done|]. split; [done|].
    intros st1 Hpop. rewrite Hget. unfold bind. rewrite Hpop.
    unfold has_model, bind.
    destruct (all_models_getitem_spec app_label st1) as (s2 & Hitem & _).
    by rewrite Hitem.
  - intros app_mod iac idf isw. split_and!.
    + intros full Hhit. apply get_models_hit with (full := full); rewrite Heoi; [done|].
      apply restrict_available_off.
    + intros l st' Hcall.
      apply get_models_spec in Hcall as (full & Hcache & Hr & Hmiss).
      rewrite Heoi in Hcache, Hr, Hmiss.
      rewrite restrict_available_off in Hr. injection Hr as <-. done.
    + intros e s. unfold get_models, bind at 1, get. rewrite Heoi.
      assert (raises_only (λ e, e = IndexError ∨ population_error e)
        (compute_models INSTALLED_APPS AppConfig_create models_module
           (app_mod, iac, idf, false, isw) app_mod iac idf false isw)) as Hcompute.
      { unfold compute_models.
        apply raises_only_bind; [|intros _].
        { intros t e0 t' H. right. by apply populate_models_raises in H. }
        apply raises_only_bind; [|intros dicts].
        { destruct app_mod as [module_name|].
          - destruct (PyStr.split_penultimate module_name) as [lbl|];
              [|apply raises_only_raise; by left].
            apply raises_only_bind; [|intros d; apply raises_only_ret].
            intros t e0 t' H.
            destruct (all_models_getitem_spec lbl t) as (t2 & Hitem & _).
            by rewrite Hitem in H.
          - apply raises_only_bind; [apply raises_only_get | intros t].
            apply raises_only_ret. }
        apply raises_only_bind; [apply raises_only_modify | intros _].
        intros t e0 t'. by rewrite restrict_available_off. }
      destruct (_get_models_cache st !! _) as [cached|]; [|apply Hcompute].
      by rewrite restrict_available_off.
Qed.


End lookup_claims.

(** ** The lookups on the small project *)

Lemma get_models_filters_after_cache_witness :
  (let st := set_available (Some {["proj.a"]}) Demo.populated in
   let st' :=
     state_of (get_models Demo.INSTALLED_APPS Demo.AppConfig_create Demo.models_module
                 None false false true false st) in
   ∃ full,
     _get_models_cache st' !! (None, false, false, true, false) = Some full ∧
     ((st' = st ∧
       _get_models_cache st !! (None, false, false, true, false) = Some full) ∨
      (∃ dicts, candidate_dicts None true st' = Some dicts ∧
                full = collect false false false dicts)) ∧
     [Demo.author]
     = match available_apps st' with
       | Some available =>
           List.filter (owner_available (app_configs st') available) full
       | None => full
       end ∧
     get_models Demo.INSTALLED_APPS Demo.AppConfig_create Demo.models_module
       None false false true false (set_available None st')
     = Ok full (set_available None st') ∧
     (all_owned (app_configs st') full → ∀ available,
      get_models Demo.INSTALLED_APPS Demo.AppConfig_create Demo.models_module
        None false false true false (set_available (Some available) st')
      = Ok (List.filter (owner_available (app_configs st') available) full)
           (set_available (Some available) st'))) ∧
  (let st' :=
     state_of (get_models Demo.INSTALLED_APPS Demo.AppConfig_create Demo.models_module
                 None false false true false Detached.registry) in
   _get_models_cache st' !! (None, false, false, false, false) = Some [Demo.book]).
Proof.
  split.
  - intros st st'.
    destruct (get_models_filters_after_cache Demo.INSTALLED_APPS Demo.AppConfig_create
                Demo.models_module None false false false st) as [Hmaster _].
    apply (Hmaster ltac:(vm_compute; reflexivity) [Demo.author] st').
    vm_compute. reflexivity.
  - intros st'.
    destruct (get_models_filters_after_cache Demo.INSTALLED_APPS Demo.AppConfig_create
                Demo.models_module None false false false Detached.registry)
      as [_ Hdetached].
    apply (Hdetached ltac:(vm_compute; reflexivity) [Demo.book] st').
    vm_compute. reflexivity.
Defined.

(** C5 as stated fails in two ways. On a registry that is not the master
    the filter is never applied: with [proj.b] registered and no app
    available, [get_models()] still returns the model of [proj.b]. And on
    the master a model whose label has no app config makes the filter
    raise: with such a model registered under the label of [proj.a], the
    unrestricted call returns it, and after [set_available_apps] the same
    call raises KeyError. *)
Lemma get_models_not_always_filtered :
  let ghost :=
    {| model_id := 5; app_label := "ghost"; model_name := "ghost";
       _deferred := false; auto_created := false; swapped := false;
       source_file := "/srv/proj/a/models.py" |} in
  let st := state_of (register_model "a" ghost Demo.populated) in
  (master Detached.registry = false ∧
   available_apps Detached.registry = Some ∅ ∧
   OD.get "b" (app_configs Detached.registry) = Some (Demo.app "proj.b") ∧
   returned (get_models Demo.INSTALLED_APPS Demo.AppConfig_create Demo.models_module
               None false false true false Detached.registry)
   = Some [Demo.book]) ∧
  (master st = true ∧
   returned (get_models Demo.INSTALLED_APPS Demo.AppConfig_create Demo.models_module
               None false false true false st)
   = Some [Demo.author; ghost; Demo.book] ∧
   raised
     ((run get_models Demo.INSTALLED_APPS Demo.AppConfig_create Demo.models_module
             None false false true false;
       run set_available_apps Demo.INSTALLED_APPS Demo.AppConfig_create
             ["proj.a"; "proj.b"];
       get_models Demo.INSTALLED_APPS Demo.AppConfig_create Demo.models_module
         None false false true false) st)
   = Some KeyError).
Proof. vm_compute. by repeat split. Qed.

Lemma get_model_unavailable_first_witness :
  (let st := set_available (Some {["proj.a"]}) Demo.populated in
   get_model Demo.INSTALLED_APPS Demo.AppConfig_create Demo.models_module
     "b" "anything" true st
   = Raise (UnavailableApp "b") st) ∧
  get_model Demo.INSTALLED_APPS Demo.AppConfig_create Demo.models_module
    "b" "anything" true Detached.registry
  = (run populate_models Demo.INSTALLED_APPS Demo.AppConfig_create Demo.models_module;
     has_model "b" "anything") Detached.registry.
Proof.
  split.
  - intros st.
    destruct (get_model_unavailable_first Demo.INSTALLED_APPS Demo.AppConfig_create
                Demo.models_module "b" "anything" st) as [Hmaster _].
    destruct Hmaster as [Hraise _]; [vm_compute; reflexivity|].
    apply (Hraise st (Demo.app "proj.b") {["proj.a"]}).
    + vm_compute. reflexivity.
    + vm_compute. reflexivity.
    + vm_compute. reflexivity.
    + apply (bool_decide_unpack _). vm_compute. exact I.
  - destruct (get_model_unavailable_first Demo.INSTALLED_APPS Demo.AppConfig_create
                Demo.models_module "b" "anything" Detached.registry)
      as [_ Hdetached].
    destruct Hdetached as [Hget _]; [vm_compute; reflexivity | exact Hget].
Defined.

(** C3 as stated fails in two ways. On a registry that is not the master,
    with the app of label [b] registered and excluded by [available_apps],
    [get_model('b', 'anything')] returns None. And on the master, with the
    apps populated and [available_apps] set to [proj.a] alone, a models
    module of [proj.b] that raises makes [get_model('b', 'anything')] raise
    that error, not UnavailableApp. *)
Lemma get_model_not_always_unavailable :
  let st :=
    state_of (set_available_apps Demo.INSTALLED_APPS Demo.AppConfig_create
                ["proj.a"] Demo.fresh) in
  returned
    (_with_app Demo.AppConfig_create Demo.models_module "proj.b"
       (run set_available_apps Demo.INSTALLED_APPS Demo.AppConfig_create [];
        do st <- get;
        do found <- get_model Demo.INSTALLED_APPS Demo.AppConfig_create
                      Demo.models_module "b" "anything" true;
        ret (master st, available_apps st, OD.get "b" (app_configs st), found))
       (new_AppCache false))
  = Some (false, Some ∅, Some (Demo.app "proj.b"), None) ∧
  (master st = true ∧
   available_apps st = Some {["proj.a"]} ∧
   OD.get "b" (app_configs st) = Some (Demo.app "proj.b") ∧
   raised (get_model Demo.INSTALLED_APPS Demo.AppConfig_create Broken.models_module
             "b" "anything" true st)
   = Some (ModuleFailure 7)).
Proof. vm_compute. by repeat split. Qed.

Lemma only_installed_false_bypasses_availability_witness :
  (master Detached.registry = false ∧
   available_apps Detached.registry = Some ∅ ∧
   returned (get_model Demo.INSTALLED_APPS Demo.AppConfig_create Demo.models_module
               "b" "Book" true Detached.registry)
   = Some (Some Demo.book) ∧
   returned (get_models Demo.INSTALLED_APPS Demo.AppConfig_create Demo.models_module
               None false false true false Detached.registry)
   = Some [Demo.book]) ∧
  (let st := set_available (Some {["proj.a"]}) Demo.populated in
   returned (get_model Demo.INSTALLED_APPS Demo.AppConfig_create Demo.models_module
               "b" "Book" false st)
   = Some (Some Demo.book)).
Proof.
  split.
  - destruct (only_installed_false_bypasses_availability Demo.INSTALLED_APPS
                Demo.AppConfig_create Demo.models_module true Detached.registry)
      as [Hget Hlist].
    + left. vm_compute. reflexivity.
    + split; [vm_compute; reflexivity|]. split; [vm_compute; reflexivity|]. split.
      * destruct (Hget "b" "Book") as (_ & _ & Hreturned).
        rewrite (Hreturned Detached.registry).
        -- vm_compute. reflexivity.
        -- vm_compute. reflexivity.
      * destruct (Hlist None false false false) as (_ & Hstored & _).
        destruct (get_models Demo.INSTALLED_APPS Demo.AppConfig_create
                    Demo.models_module None false false true false Detached.registry)
          as [l st'|e st'] eqn:Hcall; [|vm_compute in Hcall; discriminate].
        destruct (Hstored l st' eq_refl) as [_ Hgathered].
        destruct Hgathered as (dicts & Hdicts & ->); [vm_compute; reflexivity|].
        vm_compute in Hcall. injection Hcall as _ <-.
        vm_compute in Hdicts. injection Hdicts as <-. reflexivity.
  - intros st.
    destruct (only_installed_false_bypasses_availability Demo.INSTALLED_APPS
                Demo.AppConfig_create Demo.models_module false st) as [Hget _].
    + right. reflexivity.
    + destruct (Hget "b" "Book") as (_ & _ & Hreturned).
      rewrite (Hreturned st).
      * vm_compute. reflexivity.
      * vm_compute. reflexivity.
Defined.



(** ** More on population *)

Lemma od_get_not_key {V} k (d : list (string * V)) :
  k ∉ OD.keys d → OD.get k d = None.
Proof.
  unfold OD.keys. induction d as [|[k' v'] d IH]; simpl; [done|].
  intros Hnot. destruct (decide (k' = k)) as [->|Hne].
  - exfalso. apply Hnot. left.
  - apply IH. intros Hin. apply Hnot. by right.
Qed.

Section more_population.
Variable INSTALLED_APPS : list string.
Variable AppConfig_create : string → import_failure + AppConfig.
Variable models_module :
  AppConfig → AppCache → list (string * Model) * option import_failure.

(** The loop of [populate_apps] over names that can all be created, with
    labels that are new and distinct: each config is appended. *)
Lemma create_all_spec names : ∀ configs st,
  Forall2 (λ n c, AppConfig_create n = inr c) names configs →
  NoDup (OD.keys (app_configs st) ++ (label <$> configs)) →
  ∃ st',
    for_each names (λ app_name,
      do app_config <- create AppConfig_create app_name;
      modify (λ st,
        set_app_configs (OD.set (label app_config) app_config (app_configs st)) st)) st
    = Ok tt st' ∧
    app_configs st' = app_configs st ++ ((λ c, (label c, c)) <$> configs) ∧
    import_log st' = import_log st ++ (AppCreated <$> names).
Proof.
  induction names as [|n names IH]; intros configs st Hall Hnodup.
  - apply Forall2_nil_inv_l in Hall as ->. exists st. simpl.
    by rewrite !app_nil_r.
  - apply Forall2_cons_inv_l in Hall as (c & rest & Hc & Hall & ->).
    rewrite for_each_cons. unfold bind at 1, create, bind at 1, modify at 1.
    rewrite Hc. unfold ret at 1, modify at 1. simpl app_configs.
    assert (OD.get (label c) (app_configs st) = None) as Hfresh.
    { apply od_get_not_key. intros Hin.
      apply NoDup_app in Hnodup as (_ & Hdisj & _).
      apply (Hdisj _ Hin). simpl. left. }
    rewrite (od_set_absent _ _ _ Hfresh).
    destruct (IH rest
      (set_app_configs (app_configs st ++ [(label c, c)])
         (log_event (AppCreated n) st))) as (st' & Hrun & Hcfgs & Hlog); [done|..].
    { simpl. unfold OD.keys in *. rewrite fmap_app. simpl.
      rewrite <- app_assoc. simpl. done. }
    exists st'. split; [exact Hrun|]. rewrite Hcfgs, Hlog. simpl.
    by rewrite <- !app_assoc.
Qed.

(** Populating the apps of a fresh registry registers the app configs in
    the order of INSTALLED_APPS, and [get_app_configs()] yields them in
    that order. *)
Theorem populate_apps_declared_order st configs :
  _apps_loaded st = false → app_configs st = [] → available_apps st = None →
  Forall2 (λ n c, AppConfig_create n = inr c) INSTALLED_APPS configs →
  NoDup (label <$> configs) →
  ∃ st',
    get_app_configs INSTALLED_APPS AppConfig_create st = Ok configs st' ∧
    populate_apps INSTALLED_APPS AppConfig_create st = Ok tt st' ∧
    app_configs st' = (λ c, (label c, c)) <$> configs ∧
    _apps_loaded st' = true ∧
    import_log st' = import_log st ++ (AppCreated <$> INSTALLED_APPS).
Proof.
  intros Hl Hempty Havail Hall Hnodup.
  destruct (create_all_spec INSTALLED_APPS configs st Hall) as (s & Hrun & Hcfgs & Hlog).
  { by rewrite Hempty. }
  rewrite Hempty in Hcfgs. simpl in Hcfgs.
  assert (populate_apps INSTALLED_APPS AppConfig_create st
          = Ok tt (set_apps_loaded true s)) as Hpop.
  { unfold populate_apps. unfold bind at 1, get at 1. cbv beta iota. rewrite Hl.
    unfold bind at 1, get at 1. cbv beta iota. rewrite Hl, Hempty.
    rewrite bool_decide_eq_true_2 by done. cbv beta iota delta [negb].
    unfold bind at 1. by rewrite Hrun. }
  exists (set_apps_loaded true s). split_and!; try done.
  unfold get_app_configs, bind at 1. rewrite Hpop. unfold bind, get, ret.
  pose proof (populate_apps_preserves available_apps INSTALLED_APPS AppConfig_create
    ltac:(done) ltac:(done) ltac:(done) st) as Hav.
  rewrite Hpop in Hav. simpl in Hav.
  rewrite filter_all_available by (simpl; congruence).
  simpl. rewrite Hcfgs. unfold OD.values. rewrite <- list_fmap_compose.
  f_equal. by rewrite list_fmap_id.
Qed.

(** A population of the apps that fails after registering at least one
    app config cannot be tried again: the flag is unset and every later
    call raises the RuntimeError of the re-entrance check. *)
Theorem populate_apps_failure_is_final st e st' :
  populate_apps INSTALLED_APPS AppConfig_create st = Raise e st' →
  app_configs st' ≠ [] →
  _apps_loaded st' = false ∧
  populate_apps INSTALLED_APPS AppConfig_create st'
  = Raise (RuntimeError "populate_apps() isn't reentrant") st'.
Proof.
  intros Hraise Hne.
  assert (_apps_loaded st' = false) as Hl.
  { unfold populate_apps in Hraise.
    unfold bind at 1, get at 1 in Hraise. cbv beta iota in Hraise.
    destruct (_apps_loaded st) eqn:Hl; [done|].
    unfold bind at 1, get at 1 in Hraise. cbv beta iota in Hraise.
    rewrite Hl in Hraise.
    destruct (negb _); [unfold raise in Hraise; by injection Hraise as _ <-|].
    apply bind_Raise in Hraise as [Hloop|([] & s & _ & Hset)]; [|done].
    pose proof (preserves_for_each _apps_loaded INSTALLED_APPS
      (λ app_name,
         do app_config <- create AppConfig_create app_name;
         modify (λ st,
           set_app_configs (OD.set (label app_config) app_config (app_configs st)) st))
      ltac:(intros n; apply preserves_bind;
              [by apply create_preserves | intros c; by apply preserves_modify]) st)
      as Hkeep.
    rewrite Hloop in Hkeep. simpl in Hkeep. congruence. }
  split; [done|].
  unfold populate_apps, bind, get. simpl. by rewrite !Hl, bool_decide_eq_false_2.
Qed.

(** Both loops of [populate_models] leave alone what registering models
    leaves alone, the buffer aside. *)
Lemma first_pass_preserves {B} (f : AppCache → B) configs :
  ignores_all_models f → ignores_cache f → ignores_log f → ignores_postponed f →
  preserves f (for_each configs (first_pass_step models_module)).
Proof.
  intros Hm Hc Hl Hp. apply preserves_for_each. intros cfg.
  apply preserves_except.
  - apply preserves_bind; [by apply all_models_getitem_preserves | intros _].
    by apply import_models_preserves.
  - apply preserves_modify. intros. apply Hp.
Qed.

Lemma retry_pass_preserves {B} (f : AppCache → B) configs :
  ignores_all_models f → ignores_cache f → ignores_log f →
  preserves f (for_each configs (import_step models_module)).
Proof.
  intros Hm Hc Hl. apply preserves_for_each. intros cfg.
  apply preserves_bind; [by apply all_models_getitem_preserves | intros _].
  by apply import_models_preserves.
Qed.

Lemma populate_models_apps_raise st e s :
  _models_loaded st = false →
  populate_apps INSTALLED_APPS AppConfig_create st = Raise e s →
  populate_models INSTALLED_APPS AppConfig_create models_module st = Raise e s.
Proof.
  intros Hl Happs. unfold populate_models, bind, get. simpl. by rewrite !Hl, Happs.
Qed.

(** One call made while a buffer exists keeps the buffer and the unset
    flag, however it ends. *)
Lemma populate_models_nested_keeps st :
  is_Some (_postponed st) → _models_loaded st = false →
  let r := populate_models INSTALLED_APPS AppConfig_create models_module st in
  is_Some (_postponed (state_of r)) ∧ _models_loaded (state_of r) = false.
Proof.
  intros [buffer Hbuf] Hl r. subst r.
  pose proof (populate_apps_preserves (λ s, (_postponed s, _models_loaded s))
    INSTALLED_APPS AppConfig_create ltac:(done) ltac:(done) ltac:(done) st) as Hframe.
  destruct (populate_apps INSTALLED_APPS AppConfig_create st) as [[] st0|e st0] eqn:Happs;
    simpl in Hframe; injection Hframe as Hpp0 Hml0.
  - rewrite (populate_models_run _ _ _ st st0 Hl Happs). cbv zeta.
    rewrite Hpp0, Hbuf. rewrite bool_decide_eq_true_2 by by eexists.
    cbv beta iota delta [negb].
    destruct (first_pass_spec models_module (OD.values (app_configs st0)) st0 buffer)
      as (imports & _ & Hbuf' & Hml' & _); [congruence|].
    revert Hbuf' Hml'.
    generalize (for_each (OD.values (app_configs st0)) (first_pass_step models_module) st0).
    intros r Hbuf' Hml'.
    assert (is_Some (_postponed (state_of r)) ∧ _models_loaded (state_of r) = false)
      as Hgoal by (split; [by eexists | congruence]).
    by destruct r as [[] s|e s].
  - rewrite (populate_models_apps_raise st e st0 Hl Happs). simpl.
    split; [rewrite Hpp0, Hbuf; by eexists | congruence].
Qed.

(** A call of [populate_models] that raises after the apps were populated
    leaves the postponed buffer behind, and from then on no call sets the
    models-populated flag, however often it is repeated. *)
Theorem populate_models_failure_is_final st st0 e st' n :
  _models_loaded st = false →
  populate_apps INSTALLED_APPS AppConfig_create st = Ok tt st0 →
  populate_models INSTALLED_APPS AppConfig_create models_module st = Raise e st' →
  is_Some (_postponed st') ∧
  _models_loaded
    (state_of (repeat_call n
       (populate_models INSTALLED_APPS AppConfig_create models_module) st')) = false.
Proof.
  intros Hl Happs Hraise.
  assert (is_Some (_postponed st') ∧ _models_loaded st' = false) as [Hbuf Hl'].
  { pose proof (populate_apps_preserves _models_loaded
      INSTALLED_APPS AppConfig_create ltac:(done) ltac:(done) ltac:(done) st) as Hml0.
    rewrite Happs in Hml0. simpl in Hml0.
    rewrite (populate_models_run _ _ _ st st0 Hl Happs) in Hraise. cbv zeta in Hraise.
    set (st1 := if negb (bool_decide (is_Some (_postponed st0)))
                then set_postponed (Some []) st0 else st0) in *.
    assert (∃ buffer, _postponed st1 = Some buffer) as [buffer Hbuf1].
    { subst st1. case_bool_decide as Hsome; simpl.
      - destruct Hsome as [b Hb]. by exists b.
      - by exists []. }
    assert (_models_loaded st1 = false) as Hml1.
    { subst st1. destruct (negb _); simpl; congruence. }
    destruct (first_pass_spec models_module (OD.values (app_configs st1)) st1 buffer
                Hbuf1) as (imports & _ & Hbuf' & Hml' & _).
    revert Hraise Hbuf' Hml'.
    generalize (for_each (OD.values (app_configs st1))
                  (first_pass_step models_module) st1).
    intros r1 Hraise Hbuf' Hml'. destruct r1 as [[] st2|e1 st2]; simpl in *.
    - destruct (negb (bool_decide (is_Some (_postponed st0)))); [|done].
      pose proof (retry_pass_preserves (λ s, (_postponed s, _models_loaded s))
        (default [] (_postponed st2)) ltac:(done) ltac:(done) ltac:(done) st2) as Hkeep.
      destruct (for_each (default [] (_postponed st2)) _ st2) as [[] st3|e3 st3];
        [done|].
      injection Hraise as _ <-. simpl in Hkeep. injection Hkeep as Hpp3 Hml3.
      split; [rewrite Hpp3, Hbuf'; by eexists | congruence].
    - injection Hraise as _ <-. split; [by eexists | congruence]. }
  split; [done|]. clear Hraise Happs Hl.
  revert st' Hbuf Hl'. induction n as [|n IH]; intros st' Hbuf Hl'; simpl; [done|].
  destruct (populate_models_nested_keeps st' Hbuf Hl') as [Hbuf1 Hl1].
  unfold bind.
  destruct (populate_models INSTALLED_APPS AppConfig_create models_module st')
    as [[] s|e1 s]; simpl in *; [by apply IH | done].
Qed.

(** The comment on [app_cache_ready]: a registry whose models are
    populated has its apps populated. A new registry is such, and both
    population methods keep it so, however they end. *)
Theorem ready_implies_apps_invariant st is_master :
  ready_implies_apps (new_AppCache is_master) ∧
  (ready_implies_apps st →
   ready_implies_apps
     (state_of (populate_apps INSTALLED_APPS AppConfig_create st)) ∧
   ready_implies_apps
     (state_of (populate_models INSTALLED_APPS AppConfig_create models_module st))).
Proof.
  split; [by intros H|]. intros Hinv. split.
  - intros Hready.
    pose proof (populate_apps_preserves _models_loaded INSTALLED_APPS AppConfig_create
      ltac:(done) ltac:(done) ltac:(done) st) as Hml.
    destruct (_apps_loaded st) eqn:Hl.
    + by rewrite populate_apps_loaded.
    + rewrite Hml in Hready. specialize (Hinv Hready). congruence.
  - destruct (_models_loaded st) eqn:Hl.
    { rewrite populate_models_loaded by done. done. }
    pose proof (populate_apps_preserves _models_loaded INSTALLED_APPS AppConfig_create
      ltac:(done) ltac:(done) ltac:(done) st) as Hml0.
    destruct (populate_apps INSTALLED_APPS AppConfig_create st) as [[] st0|e st0] eqn:Happs;
      simpl in Hml0.
    2: { rewrite (populate_models_apps_raise st e st0 Hl Happs). simpl.
         intros Hready. congruence. }
    pose proof (populate_apps_sets_flag _ _ _ _ Happs) as Hal0.
    rewrite (populate_models_run _ _ _ st st0 Hl Happs). cbv zeta.
    set (st1 := if negb (bool_decide (is_Some (_postponed st0)))
                then set_postponed (Some []) st0 else st0).
    assert (_apps_loaded st1 = true) as Hal1.
    { subst st1. by destruct (negb _). }
    clearbody st1.
    pose proof (first_pass_preserves _apps_loaded (OD.values (app_configs st1))
      ltac:(done) ltac:(done) ltac:(done) ltac:(done) st1) as Hal2.
    destruct (for_each (OD.values (app_configs st1)) _ st1) as [[] st2|e2 st2];
      simpl in Hal2; [|intros _; simpl; congruence].
    destruct (negb (bool_decide (is_Some (_postponed st0)))); [|intros _; simpl; congruence].
    pose proof (retry_pass_preserves _apps_loaded (default [] (_postponed st2))
      ltac:(done) ltac:(done) ltac:(done) st2) as Hal3.
    destruct (for_each (default [] (_postponed st2)) _ st2) as [[] st3|e3 st3];
      simpl in Hal3; intros _; simpl; congruence.
Qed.

End more_population.

Lemma populate_apps_declared_order_witness :
  ∃ st',
    get_app_configs Demo.INSTALLED_APPS Demo.AppConfig_create Demo.fresh
    = Ok [Demo.app "proj.a"; Demo.app "proj.b"] st' ∧
    populate_apps Demo.INSTALLED_APPS Demo.AppConfig_create Demo.fresh = Ok tt st' ∧
    app_configs st'
    = (λ c, (label c, c)) <$> [Demo.app "proj.a"; Demo.app "proj.b"] ∧
    _apps_loaded st' = true ∧
    import_log st' = import_log Demo.fresh ++ (AppCreated <$> Demo.INSTALLED_APPS).
Proof.
  apply (populate_apps_declared_order Demo.INSTALLED_APPS Demo.AppConfig_create
           Demo.fresh [Demo.app "proj.a"; Demo.app "proj.b"]).
  - reflexivity.
  - reflexivity.
  - reflexivity.
  - repeat constructor.
  - apply (bool_decide_unpack _). vm_compute. exact I.
Defined.

Lemma populate_apps_failure_is_final_witness :
  let st' :=
    state_of (populate_apps Demo.INSTALLED_APPS Broken.AppConfig_create Demo.fresh) in
  _apps_loaded st' = false ∧
  populate_apps Demo.INSTALLED_APPS Broken.AppConfig_create st'
  = Raise (RuntimeError "populate_apps() isn't reentrant") st'.
Proof.
  intros st'.
  apply (populate_apps_failure_is_final Demo.INSTALLED_APPS Broken.AppConfig_create
           Demo.fresh (ModuleFailure 1) st').
  - vm_compute. reflexivity.
  - vm_compute. discriminate.
Defined.

Lemma populate_models_failure_is_final_witness :
  let st' :=
    state_of (populate_models Demo.INSTALLED_APPS Demo.AppConfig_create
                Broken.models_module Demo.fresh) in
  is_Some (_postponed st') ∧
  _models_loaded
    (state_of (repeat_call 2
       (populate_models Demo.INSTALLED_APPS Demo.AppConfig_create Broken.models_module)
       st')) = false.
Proof.
  intros st'.
  apply (populate_models_failure_is_final Demo.INSTALLED_APPS Demo.AppConfig_create
           Broken.models_module Demo.fresh
           (state_of (populate_apps Demo.INSTALLED_APPS Demo.AppConfig_create Demo.fresh))
           (ModuleFailure 7) st' 2).
  - reflexivity.
  - vm_compute. reflexivity.
  - vm_compute. reflexivity.
Defined.

Lemma ready_implies_apps_invariant_witness :
  ready_implies_apps
    (state_of (populate_apps Demo.INSTALLED_APPS Demo.AppConfig_create Demo.fresh)) ∧
  ready_implies_apps
    (state_of (populate_models Demo.INSTALLED_APPS Demo.AppConfig_create
                 Demo.models_module Demo.fresh)).
Proof.
  destruct (ready_implies_apps_invariant Demo.INSTALLED_APPS Demo.AppConfig_create
              Demo.models_module Demo.fresh true) as [_ Hkept].
  apply Hkept. intros Hready. vm_compute in Hready. discriminate.
Defined.

(** ** More on registration and lookup *)

Lemma od_keys_set_absent {V} k (v : V) (d : list (string * V)) :
  OD.get k d = None → OD.keys (OD.set k v d) = OD.keys d ++ [k].
Proof.
  intros H. rewrite od_set_absent by done. unfold OD.keys. by rewrite fmap_app.
Qed.

Lemma register_model_run app_label model st :
  register_model app_label model st =
  Ok tt (if known_again app_label model st then st
         else with_model app_label model st).
Proof.
  destruct (all_models_getitem_spec app_label st) as (s & Hitem & Hfiled & Hrest).
  unfold register_model, bind, known_again, registered, with_model.
  rewrite Hitem. simpl.
  destruct (OD.get (model_name model) (default [] (OD.get app_label (all_models st))))
    as [old|] eqn:Hold; [|done].
  destruct (decide _) as [Heq|Hne].
  - rewrite bool_decide_eq_true_2 by done. unfold ret. f_equal.
    unfold all_models_getitem in Hitem.
    destruct (OD.get app_label (all_models st)); [by injection Hitem | done].
  - by rewrite bool_decide_eq_false_2.
Qed.

Lemma registered_with_model app_label model st l k :
  registered l k (with_model app_label model st) =
  if decide (l = app_label ∧ k = model_name model) then Some model
  else registered l k st.
Proof.
  unfold with_model, registered at 1. simpl.
  destruct (decide (l = app_label)) as [->|Hl].
  - rewrite od_get_set_eq. simpl.
    destruct (decide (k = model_name model)) as [->|Hk].
    + rewrite od_get_set_eq. by rewrite decide_True.
    + rewrite od_get_set_ne by done. by rewrite decide_False by (intros [_ ?]; done).
  - rewrite od_get_set_ne by done. rewrite decide_False by (intros [? _]; done).
    apply (all_models_getitem_registered app_label st l k).
Qed.

Lemma with_model_control app_label model st :
  control (with_model app_label model st) = control st ∧
  import_log (with_model app_label model st) = import_log st ∧
  _get_models_cache (with_model app_label model st) = ∅.
Proof.
  destruct (all_models_getitem_spec app_label st) as (s & Hitem & _ & Hrest).
  apply pair_equal_spec in Hrest as [Hrest _].
  apply pair_equal_spec in Hrest as [Hc Hl].
  unfold with_model. rewrite Hitem. simpl state_of.
  split_and!; [exact Hc | exact Hl | done].
Qed.

Lemma has_model_run app_label model_name st :
  has_model app_label model_name st =
  Ok (registered app_label (PyStr.lower model_name) st)
     (state_of (all_models_getitem app_label st)).
Proof.
  destruct (all_models_getitem_spec app_label st) as (s & Hitem & _).
  unfold has_model, bind. by rewrite Hitem.
Qed.

(** [has_model] finds what [register_model] has just filed, whatever the
    case of the name asked for: the model itself, or the model of the same
    name and source file that was there already. *)
Theorem has_model_after_register_model app_label model query st :
  PyStr.lower query = model_name model →
  returned ((run register_model app_label model; has_model app_label query) st)
  = Some (Some (match registered app_label (model_name model) st with
                | Some old =>
                    if decide (PyStr.splitext_root (source_file model)
                               = PyStr.splitext_root (source_file old))
                    then old else model
                | None => model
                end)).
Proof.
  intros Hq. unfold bind. rewrite register_model_run, has_model_run, Hq. simpl.
  unfold known_again.
  destruct (registered app_label (model_name model) st) as [old|] eqn:Hold.
  - destruct (decide _) as [Heq|Hne].
    + by rewrite bool_decide_eq_true_2, Hold.
    + rewrite bool_decide_eq_false_2 by done.
      by rewrite registered_with_model, decide_True.
  - by rewrite registered_with_model, decide_True.
Qed.

(** [has_model] imports nothing and changes no lookup: it returns what is
    filed under the label and the lowercased name, and afterwards every
    label and name is filed as before, the control state, the lookup cache
    and the log of imports are untouched. *)
Theorem has_model_reads_only app_label model_name st :
  ∃ st',
    has_model app_label model_name st
    = Ok (registered app_label (PyStr.lower model_name) st) st' ∧
    (∀ l k, registered l k st' = registered l k st) ∧
    (control st', import_log st', _get_models_cache st')
    = (control st, import_log st, _get_models_cache st).
Proof.
  exists (state_of (all_models_getitem app_label st)).
  split; [apply has_model_run|]. split.
  - intros l k. apply all_models_getitem_registered.
  - destruct (all_models_getitem_spec app_label st) as (s & Hitem & _ & Hrest).
    by rewrite Hitem.
Qed.

(** [register_models] with models of distinct names, none of them filed
    yet: every model is found afterwards, the names are appended to the
    mapping of the label in the order given, and nothing else changes in
    what is filed. *)
Theorem register_models_files_all app_label models : ∀ st,
  NoDup (model_name <$> models) →
  Forall (λ m, registered app_label (model_name m) st = None) models →
  ∃ st',
    register_models app_label models st = Ok tt st' ∧
    Forall (λ m, registered app_label (model_name m) st' = Some m) models ∧
    (∀ l k, l ≠ app_label ∨ k ∉ model_name <$> models →
            registered l k st' = registered l k st) ∧
    OD.keys (default [] (OD.get app_label (all_models st')))
    = OD.keys (default [] (OD.get app_label (all_models st)))
      ++ (model_name <$> models) ∧
    control st' = control st.
Proof.
  unfold register_models.
  induction models as [|m rest IH]; intros st Hnodup Hnew.
  - exists st. simpl. rewrite app_nil_r. by split_and!.
  - apply NoDup_cons in Hnodup as [Hm Hnodup].
    apply Forall_cons in Hnew as [Hm_new Hrest_new].
    rewrite for_each_cons, register_model_run.
    unfold known_again. rewrite Hm_new.
    destruct (IH (with_model app_label m st)) as (st' & Hrun & Hall & Hother & Hkeys & Hctl).
    { done. }
    { eapply Forall_impl; [|intros x Hx; exact Hx].
      apply Forall_forall. intros x Hx.
      rewrite registered_with_model, decide_False.
      - by eapply Forall_forall in Hrest_new.
      - intros [_ Heq]. apply Hm. rewrite <- Heq. by apply list_elem_of_fmap_2. }
    exists st'. split; [exact Hrun|]. split_and!.
    + constructor; [|done].
      rewrite Hother by (right; done).
      by rewrite registered_with_model, decide_True.
    + intros l k Hlk. rewrite Hother.
      * rewrite registered_with_model, decide_False; [done|].
        intros [-> ->]. destruct Hlk as [?|Hk]; [done|]. apply Hk. simpl. left.
      * destruct Hlk as [?|Hk]; [by left|]. right. intros Hin. apply Hk. simpl. by right.
    + rewrite Hkeys. unfold with_model. simpl. rewrite od_get_set_eq. simpl.
      rewrite od_keys_set_absent by exact Hm_new. by rewrite <- app_assoc.
    + rewrite Hctl. apply with_model_control.
Qed.

Section more_lookup.
Variable INSTALLED_APPS : list string.
Variable AppConfig_create : string → import_failure + AppConfig.
Variable models_module :
  AppConfig → AppCache → list (string * Model) * option import_failure.

(** On the populated master registry [get_model] only sees the models of
    the installed apps, unless told otherwise: for a label without app
    config it returns None whatever is filed under the label, for the
    label of an available app it returns what is filed under the
    lowercased name, and with [only_installed] false it returns what is
    filed under any label. *)
Theorem get_model_installed_only app_label model_name st :
  master st = true → _models_loaded st = true →
  (OD.get app_label (app_configs st) = None →
   get_model INSTALLED_APPS AppConfig_create models_module
     app_label model_name true st = Ok None st) ∧
  (∀ app_config,
     OD.get app_label (app_configs st) = Some app_config →
     is_available st app_config = true →
     returned (get_model INSTALLED_APPS AppConfig_create models_module
                 app_label model_name true st)
     = Some (registered app_label (PyStr.lower model_name) st)) ∧
  returned (get_model INSTALLED_APPS AppConfig_create models_module
              app_label model_name false st)
  = Some (registered app_label (PyStr.lower model_name) st).
Proof.
  intros Hmaster Hloaded.
  pose proof (populate_models_loaded INSTALLED_APPS AppConfig_create models_module
    st Hloaded) as Hpop.
  destruct (all_models_getitem_spec app_label st) as (s & Hitem & _).
  split_and!.
  - intros Hnone. unfold get_model, bind, get, effective_only_installed.
    cbv beta iota zeta. rewrite Hmaster. cbv beta iota. rewrite Hpop.
    cbv beta iota. by rewrite Hnone.
  - intros cfg Hcfg Hav. unfold get_model, bind, get, effective_only_installed.
    cbv beta iota zeta. rewrite Hmaster. cbv beta iota. rewrite Hpop.
    cbv beta iota. rewrite Hcfg, Hav. cbv beta iota delta [negb].
    by rewrite Hitem.
  - unfold get_model, bind, get, effective_only_installed.
    cbv beta iota zeta. rewrite Hmaster. cbv beta iota. rewrite Hpop.
    cbv beta iota. by rewrite Hitem.
Qed.

Lemma set_available_apps_run available st st0 :
  available_apps st = None →
  populate_apps INSTALLED_APPS AppConfig_create st = Ok tt st0 →
  set_available_apps INSTALLED_APPS AppConfig_create available st =
  (let requested : gset string := list_to_set available in
   let installed : gset string := list_to_set (name <$> OD.values (app_configs st0)) in
   if negb (bool_decide (requested ⊆ installed))
   then Raise (ValueError (requested ∖ installed)) st0
   else Ok tt (set_available (Some requested) st0)).
Proof.
  intros Hnone Happs.
  pose proof (populate_apps_keeps_available INSTALLED_APPS AppConfig_create st) as Hav.
  rewrite Happs in Hav. simpl in Hav. rewrite Hnone in Hav.
  unfold set_available_apps, get_app_configs, bind, get. simpl.
  rewrite Hnone. simpl. rewrite Happs. simpl.
  rewrite (filter_all_available st0) by done.
  by destruct (negb _).
Qed.

Lemma get_app_configs_loaded st :
  _apps_loaded st = true →
  get_app_configs INSTALLED_APPS AppConfig_create st
  = Ok (List.filter (is_available st) (OD.values (app_configs st))) st.
Proof.
  intros Hl. unfold get_app_configs, bind at 1.
  by rewrite populate_apps_loaded.
Qed.

(** Restricting the available apps and lifting the restriction again: in
    between, [get_app_configs()] yields the app configs with a requested
    name, in registry order; afterwards it yields all of them, in the same
    order, from the very state the restriction started from. *)
Theorem available_apps_round_trip available st st0 :
  available_apps st = None →
  populate_apps INSTALLED_APPS AppConfig_create st = Ok tt st0 →
  (list_to_set available : gset string)
    ⊆ list_to_set (name <$> OD.values (app_configs st0)) →
  ∃ st1,
    set_available_apps INSTALLED_APPS AppConfig_create available st = Ok tt st1 ∧
    get_app_configs INSTALLED_APPS AppConfig_create st1
    = Ok (List.filter (λ c, bool_decide (name c ∈ available))
            (OD.values (app_configs st0))) st1 ∧
    (run unset_available_apps; get_app_configs INSTALLED_APPS AppConfig_create) st1
    = Ok (OD.values (app_configs st0)) st0.
Proof.
  intros Hnone Happs Hsub.
  pose proof (populate_apps_keeps_available INSTALLED_APPS AppConfig_create st) as Hav.
  rewrite Happs in Hav. simpl in Hav. rewrite Hnone in Hav.
  pose proof (populate_apps_sets_flag _ _ _ _ Happs) as Hl0.
  exists (set_available (Some (list_to_set available)) st0). split_and!.
  - rewrite (set_available_apps_run available st st0 Hnone Happs). simpl.
    by rewrite bool_decide_eq_true_2.
  - rewrite get_app_configs_loaded by done. f_equal.
    apply filter_ext. intros c. unfold is_available. simpl.
    apply bool_decide_ext. by rewrite elem_of_list_to_set.
  - unfold bind. rewrite unset_after_set by done.
    rewrite get_app_configs_loaded by done.
    by rewrite filter_all_available.
Qed.

End more_lookup.

(** Inside [_without_app(app_name)] the app is not registered for
    [has_app]; after it, it is again. *)
Theorem without_app_hides_app app_name app_config st :
  NoDup (OD.keys (app_configs st)) →
  has_app app_name st = Ok (Some app_config) st →
  label app_config = PyStr.rpartition_tail app_name →
  ∃ st',
    _without_app app_name (has_app app_name) st = Ok None st' ∧
    has_app app_name st' = Ok (Some app_config) st' ∧
    ∀ k, OD.get k (app_configs st') = OD.get k (app_configs st).
Proof.
  intros Hnodup Hhas Hlabel.
  assert (OD.get (PyStr.rpartition_tail app_name) (app_configs st) = Some app_config
          ∧ name app_config = app_name) as [Hget Hname].
  { unfold has_app, bind, get in Hhas. simpl in Hhas.
    destruct (OD.get (PyStr.rpartition_tail app_name) (app_configs st)) as [c|]; [|done].
    destruct (decide (name c = app_name)); [|done].
    by injection Hhas as ->. }
  eexists. split_and!.
  - rewrite (without_app_present _ _ _ _ Hget).
    unfold has_app at 1, bind, get. simpl.
    by rewrite od_get_remove_eq.
  - unfold has_app, bind, get. simpl. rewrite Hlabel, od_get_set_eq.
    by rewrite decide_True.
  - intros k. simpl. rewrite Hlabel.
    destruct (decide (PyStr.rpartition_tail app_name = k)) as [<-|Hne].
    + by rewrite od_get_set_eq.
    + rewrite od_get_set_ne by done. by rewrite od_get_remove_ne.
Qed.

Lemma has_model_after_register_model_witness :
  returned ((run register_model "b" Demo.book; has_model "b" "BooK") Demo.fresh)
  = Some (Some Demo.book).
Proof.
  rewrite (has_model_after_register_model "b" Demo.book "BooK" Demo.fresh).
  - vm_compute. reflexivity.
  - vm_compute. reflexivity.
Defined.

Lemma register_models_files_all_witness :
  ∃ st',
    register_models "lib" [Demo.author; Demo.book] Demo.populated = Ok tt st' ∧
    Forall (λ m, registered "lib" (model_name m) st' = Some m) [Demo.author; Demo.book] ∧
    (∀ l k, l ≠ "lib" ∨ k ∉ model_name <$> [Demo.author; Demo.book] →
            registered l k st' = registered l k Demo.populated) ∧
    OD.keys (default [] (OD.get "lib" (all_models st')))
    = OD.keys (default [] (OD.get "lib" (all_models Demo.populated)))
      ++ (model_name <$> [Demo.author; Demo.book]) ∧
    control st' = control Demo.populated.
Proof.
  apply (register_models_files_all "lib" [Demo.author; Demo.book] Demo.populated).
  - apply (bool_decide_unpack _). vm_compute. exact I.
  - repeat constructor; vm_compute; reflexivity.
Defined.

Lemma get_model_installed_only_witness :
  let st := state_of (register_model "ghost" Demo.book Demo.populated) in
  get_model Demo.INSTALLED_APPS Demo.AppConfig_create Demo.models_module
    "ghost" "book" true st = Ok None st ∧
  returned (get_model Demo.INSTALLED_APPS Demo.AppConfig_create Demo.models_module
              "ghost" "book" false st)
  = Some (Some Demo.book).
Proof.
  intros st.
  destruct (get_model_installed_only Demo.INSTALLED_APPS Demo.AppConfig_create
              Demo.models_module "ghost" "book" st) as (Hhidden & _ & Hall).
  - vm_compute. reflexivity.
  - vm_compute. reflexivity.
  - split.
    + apply Hhidden. vm_compute. reflexivity.
    + rewrite Hall. vm_compute. reflexivity.
Defined.

Lemma available_apps_round_trip_witness :
  ∃ st1,
    set_available_apps Demo.INSTALLED_APPS Demo.AppConfig_create ["proj.b"]
      Demo.populated = Ok tt st1 ∧
    get_app_configs Demo.INSTALLED_APPS Demo.AppConfig_create st1
    = Ok (List.filter (λ c, bool_decide (name c ∈ ["proj.b"]))
            (OD.values (app_configs Demo.populated))) st1 ∧
    (run unset_available_apps;
     get_app_configs Demo.INSTALLED_APPS Demo.AppConfig_create) st1
    = Ok (OD.values (app_configs Demo.populated)) Demo.populated.
Proof.
  apply (available_apps_round_trip Demo.INSTALLED_APPS Demo.AppConfig_create
           ["proj.b"] Demo.populated Demo.populated).
  - vm_compute. reflexivity.
  - vm_compute. reflexivity.
  - apply (bool_decide_unpack _). vm_compute. exact I.
Defined.

Lemma without_app_hides_app_witness :
  ∃ st',
    _without_app "proj.a" (has_app "proj.a") Demo.populated = Ok None st' ∧
    has_app "proj.a" st' = Ok (Some (Demo.app "proj.a")) st' ∧
    ∀ k, OD.get k (app_configs st') = OD.get k (app_configs Demo.populated).
Proof.
  apply (without_app_hides_app "proj.a" (Demo.app "proj.a") Demo.populated).
  - apply (bool_decide_unpack _). vm_compute. exact I.
  - vm_compute. reflexivity.
  - vm_compute. reflexivity.
Defined.

(** ** The lookup cache holds what its keys ask for *)

Section stepping.
Context (R : AppCache → AppCache → Prop).
Hypothesis R_refl : ∀ st, R st st.
Hypothesis R_trans : ∀ a b c, R a b → R b c → R a c.

Lemma steps_ret {A} (a : A) : steps R (ret a).
Proof. intros st. apply R_refl. Qed.

Lemma steps_raise {A} e : steps R (@raise A e).
Proof. intros st. apply R_refl. Qed.

Lemma steps_get : steps R get.
Proof. intros st. apply R_refl. Qed.

Lemma steps_bind {A B} (c : M A) (k : A → M B) :
  steps R c → (∀ a, steps R (k a)) → steps R (bind c k).
Proof.
  intros Hc Hk st. unfold bind. specialize (Hc st).
  destruct (c st) as [a s|e s]; simpl in *; [|done].
  eapply R_trans; [exact Hc | apply Hk].
Qed.

Lemma steps_for_each {A} (xs : list A) (body : A → M unit) :
  (∀ x, steps R (body x)) → steps R (for_each xs body).
Proof.
  intros Hbody. induction xs as [|x rest IH]; simpl.
  - apply steps_ret.
  - apply steps_bind; [apply Hbody | intros _; apply IH].
Qed.

Lemma steps_except {A} (c h : M A) :
  steps R c → steps R h → steps R (except_ImportError c h).
Proof.
  intros Hc Hh st. unfold except_ImportError. specialize (Hc st).
  destruct (c st) as [a s|e s]; simpl in *; [done|].
  destruct e; simpl; try done. eapply R_trans; [exact Hc | apply Hh].
Qed.

End stepping.

Lemma cache_kept_or_cleared_refl st : cache_kept_or_cleared st st.
Proof. by left. Qed.

Lemma cache_kept_or_cleared_trans a b c :
  cache_kept_or_cleared a b → cache_kept_or_cleared b c → cache_kept_or_cleared a c.
Proof. unfold cache_kept_or_cleared. intros [?|?] [?|?]; (left + right); congruence. Qed.

Lemma cache_kept_of_preserved {A} (c : M A) :
  preserves _get_models_cache c → steps cache_kept_or_cleared c.
Proof. intros H st. left. apply H. Qed.

Lemma cache_sound_step st st' :
  cache_sound st → cache_kept_or_cleared st st' → cache_sound st'.
Proof.
  intros Hsound [Hkept|Hcleared] app_mod iac idf oi isw l.
  - rewrite Hkept. apply Hsound.
  - by rewrite Hcleared, lookup_empty.
Qed.

Lemma register_model_cache app_label model :
  steps cache_kept_or_cleared (register_model app_label model).
Proof.
  intros st. rewrite register_model_run. simpl.
  destruct (known_again app_label model st); [by left | right].
  apply with_model_control.
Qed.

Section cache_soundness.
Variable INSTALLED_APPS : list string.
Variable AppConfig_create : string → import_failure + AppConfig.
Variable models_module :
  AppConfig → AppCache → list (string * Model) * option import_failure.

Lemma import_step_cache app_config :
  steps cache_kept_or_cleared (import_step models_module app_config).
Proof.
  unfold import_step, import_models.
  apply (steps_bind _ cache_kept_or_cleared_trans); [|intros _].
  { apply cache_kept_of_preserved. by apply all_models_getitem_preserves. }
  apply (steps_bind _ cache_kept_or_cleared_trans); [|intros st].
  { apply (steps_get _ cache_kept_or_cleared_refl). }
  destruct (models_module app_config st) as [registrations outcome].
  apply (steps_bind _ cache_kept_or_cleared_trans); [|intros _].
  { apply (steps_for_each _ cache_kept_or_cleared_refl cache_kept_or_cleared_trans).
    intros r. apply register_model_cache. }
  apply (steps_bind _ cache_kept_or_cleared_trans); [|intros _].
  { apply cache_kept_of_preserved. by apply preserves_modify. }
  destruct outcome.
  - apply (steps_raise _ cache_kept_or_cleared_refl).
  - apply (steps_ret _ cache_kept_or_cleared_refl).
Qed.

Lemma populate_models_cache :
  steps cache_kept_or_cleared
    (populate_models INSTALLED_APPS AppConfig_create models_module).
Proof.
  intros st.
  destruct (_models_loaded st) eqn:Hl.
  { rewrite populate_models_loaded by done. by left. }
  pose proof (populate_apps_preserves _get_models_cache INSTALLED_APPS AppConfig_create
    ltac:(done) ltac:(done) ltac:(done) st) as Happs_cache.
  destruct (populate_apps INSTALLED_APPS AppConfig_create st) as [[] st0|e st0] eqn:Happs;
    simpl in Happs_cache.
  2: { rewrite (populate_models_apps_raise _ _ models_module st e st0 Hl Happs).
       by left. }
  rewrite (populate_models_run _ _ _ st st0 Hl Happs). cbv zeta.
  set (st1 := if negb (bool_decide (is_Some (_postponed st0)))
              then set_postponed (Some []) st0 else st0).
  assert (cache_kept_or_cleared st st1) as H1.
  { left. subst st1. destruct (negb _); simpl; congruence. }
  clearbody st1.
  pose proof (steps_for_each cache_kept_or_cleared cache_kept_or_cleared_refl
    cache_kept_or_cleared_trans (OD.values (app_configs st1))
    (first_pass_step models_module)) as Hfirst.
  specialize (Hfirst ltac:(intros cfg;
    apply (steps_except _ cache_kept_or_cleared_trans);
    [apply import_step_cache
    | apply cache_kept_of_preserved; by apply preserves_modify]) st1).
  destruct (for_each (OD.values (app_configs st1)) _ st1) as [[] st2|e2 st2];
    simpl in Hfirst; [|simpl; by eapply cache_kept_or_cleared_trans].
  destruct (negb (bool_decide (is_Some (_postponed st0))));
    [|simpl; by eapply cache_kept_or_cleared_trans].
  pose proof (steps_for_each cache_kept_or_cleared cache_kept_or_cleared_refl
    cache_kept_or_cleared_trans (default [] (_postponed st2))
    (import_step models_module) import_step_cache st2) as Hretry.
  assert (cache_kept_or_cleared st st2) as H2
    by by eapply cache_kept_or_cleared_trans.
  destruct (for_each (default [] (_postponed st2)) _ st2) as [[] st3|e3 st3];
    simpl in Hretry |- *; by eapply cache_kept_or_cleared_trans.
Qed.

Lemma collect_selected iac idf isw dicts :
  Forall (λ m, selected iac idf isw m = true) (collect iac idf isw dicts).
Proof.
  apply Forall_forall. intros m Hin. apply list_elem_of_In in Hin.
  unfold collect in Hin. apply in_flat_map in Hin as (d & _ & Hin).
  by apply filter_In in Hin as [_ ?].
Qed.

Lemma restrict_available_sublist oi full l st st' (P : Model → Prop) :
  restrict_available oi full st = Ok l st' → Forall P full → Forall P l.
Proof.
  rewrite restrict_available_run. intros Hr Hall.
  destruct (available_apps st) as [av|]; [|by injection Hr as <-].
  destruct oi; [|by injection Hr as <-].
  destruct (only_available _ _ _) as [kept|] eqn:Hkept; [|done].
  injection Hr as <- _. apply only_available_filter in Hkept as [-> _].
  apply Forall_forall. intros m Hin. apply list_elem_of_In, filter_In in Hin as [Hin _].
  eapply Forall_forall in Hall; [done|]. by apply list_elem_of_In.
Qed.

Lemma compute_models_cache_sound app_mod iac idf eoi isw st r :
  cache_sound st →
  compute_models INSTALLED_APPS AppConfig_create models_module
    (app_mod, iac, idf, eoi, isw) app_mod iac idf eoi isw st = r →
  cache_sound (state_of r) ∧
  ∀ l st', r = Ok l st' → Forall (λ m, selected iac idf isw m = true) l.
Proof.
  intros Hsound Hr. unfold compute_models in Hr.
  pose proof (populate_models_cache st) as Hpop.
  unfold bind at 1 in Hr.
  destruct (populate_models INSTALLED_APPS AppConfig_create models_module st)
    as [[] s1|e s1]; simpl in Hpop.
  2: { subst r. simpl.
       split; [exact (cache_sound_step st s1 Hsound Hpop) | intros ?? [=]]. }
  assert (cache_sound s1) as Hsound1 by exact (cache_sound_step st s1 Hsound Hpop).
  unfold bind at 1 in Hr.
  match type of Hr with
  | match ?g s1 with _ => _ end = _ => set (gather := g) in Hr
  end.
  assert (cache_sound (state_of (gather s1))) as Hsound2.
  { subst gather. destruct app_mod as [module_name|].
    - destruct (PyStr.split_penultimate module_name) as [lbl|]; [|done].
      destruct eoi.
      + unfold bind, get. destruct (OD.get lbl (app_configs s1)); done.
      + destruct (all_models_getitem_spec lbl s1) as (s & Hitem & _ & Hrest).
        unfold bind. rewrite Hitem. simpl.
        apply pair_equal_spec in Hrest as [_ Hcache].
        eapply cache_sound_step; [exact Hsound1 | by left].
    - unfold bind, get. by destruct eoi. }
  destruct (gather s1) as [dicts s2|e s2].
  2: { subst r. split; [done | intros ?? [=]]. }
  simpl in Hsound2. unfold bind at 1, modify at 1 in Hr.
  fold (collect iac idf isw dicts) in Hr.
  assert (cache_sound (set_cache
    (<[(app_mod, iac, idf, eoi, isw) := collect iac idf isw dicts]>
       (_get_models_cache s2)) s2)) as Hsound3.
  { intros am a b c d l. simpl. rewrite lookup_insert. case_decide as Hkey.
    - injection Hkey as <- <- <- <- <-. intros [= <-]. apply collect_selected.
    - apply Hsound2. }
  subst r. split.
  - by rewrite restrict_available_state.
  - intros l st' Hr. eapply restrict_available_sublist; [exact Hr|].
    apply collect_selected.
Qed.

(** A new registry has a sound lookup cache, [register_model] and
    [get_models] keep it sound however they end, and on a sound cache
    [get_models] never returns a model that is deferred, auto-created or
    swapped unless the corresponding flag asks for it. *)
Theorem get_models_respects_flags app_mod iac idf oi isw app_label model st is_master :
  cache_sound (new_AppCache is_master) ∧
  (cache_sound st →
   cache_sound (state_of (register_model app_label model st)) ∧
   cache_sound
     (state_of (get_models INSTALLED_APPS AppConfig_create models_module
                  app_mod iac idf oi isw st)) ∧
   ∀ l st',
     get_models INSTALLED_APPS AppConfig_create models_module
       app_mod iac idf oi isw st = Ok l st' →
     Forall (λ m,
       (_deferred m = true → idf = true) ∧
       (auto_created m = true → iac = true) ∧
       (swapped m = true → isw = true)) l).
Proof.
  split.
  { intros am a b c d l. simpl. by rewrite lookup_empty. }
  intros Hsound. split; [by eapply cache_sound_step, register_model_cache|].
  assert (cache_sound
     (state_of (get_models INSTALLED_APPS AppConfig_create models_module
                  app_mod iac idf oi isw st)) ∧
   ∀ l st',
     get_models INSTALLED_APPS AppConfig_create models_module
       app_mod iac idf oi isw st = Ok l st' →
     Forall (λ m, selected iac idf isw m = true) l) as [Hkeep Hsel].
  { unfold get_models, bind, get. cbv beta iota zeta.
    destruct (compute_models_cache_sound app_mod iac idf
                (effective_only_installed st oi) isw st _ Hsound eq_refl) as [Hc1 Hc2].
    destruct (_get_models_cache st !! _) as [cached|] eqn:Hhit; [|by split].
    pose proof (restrict_available_state (effective_only_installed st oi) cached st)
      as Hst.
    destruct (restrict_available _ cached st) as [l0 s0|e s0] eqn:Hr;
      simpl in Hst; subst s0.
    - split; [done|]. intros l st' [= <- <-].
      eapply restrict_available_sublist; [exact Hr|]. by eapply Hsound.
    - destruct e; try (by split). }
  split; [done|]. intros l st' Hcall.
  eapply Forall_impl; [by eapply Hsel|]. intros m Hm.
  unfold selected in Hm. destruct (_deferred m), (auto_created m), (swapped m),
    idf, iac, isw; simpl in Hm; by split_and!.
Qed.

End cache_soundness.

Lemma get_models_respects_flags_witness :
  let through :=
    {| model_id := 4; app_label := "a"; model_name := "author_books";
       _deferred := false; auto_created := true; swapped := false;
       source_file := "/srv/proj/a/models.py" |} in
  let st := state_of (register_model "a" through Demo.populated) in
  cache_sound
    (state_of (get_models Demo.INSTALLED_APPS Demo.AppConfig_create Demo.models_module
                 None false false true false st)).
Proof.
  intros through st.
  destruct (get_models_respects_flags Demo.INSTALLED_APPS Demo.AppConfig_create
              Demo.models_module None false false true false "a" through
              Demo.populated true) as [_ Hkept].
  destruct Hkept as (Hregistered & _).
  - intros am a b c d l Hl. vm_compute in Hl. discriminate.
  - destruct (get_models_respects_flags Demo.INSTALLED_APPS Demo.AppConfig_create
                Demo.models_module None false false true false "a" through
                st true) as [_ Hkept'].
    apply Hkept'. exact Hregistered.
Defined.

(** ** Dotted names *)

#[local] Arguments String.append !_ _ / : simpl nomatch.

Lemma str_app_nil_r (s : string) : s +:+ "" = s.
Proof. induction s as [|c s IH]; simpl; [done | by rewrite IH]. Qed.

Lemma str_app_assoc (a b c : string) : (a +:+ b) +:+ c = a +:+ (b +:+ c).
Proof. induction a as [|x a IH]; simpl; [done | by rewrite IH]. Qed.

Lemma list_ascii_of_string_app (a b : string) :
  list_ascii_of_string (a +:+ b) = list_ascii_of_string a ++ list_ascii_of_string b.
Proof. induction a as [|x a IH]; simpl; [done | by rewrite IH]. Qed.

Lemma string_of_list_ascii_app (a b : list ascii) :
  string_of_list_ascii (a ++ b) = string_of_list_ascii a +:+ string_of_list_ascii b.
Proof. induction a as [|x a IH]; simpl; [done | by rewrite IH]. Qed.

Lemma split_from_nonempty sep acc s : PyStr.split_from sep acc s ≠ [].
Proof.
  revert acc. induction s as [|c s IH]; intros acc; simpl; [done|].
  destruct (Ascii.eqb c sep); [done | apply IH].
Qed.

Lemma join_cons sep p rest :
  rest ≠ [] → PyPath.join sep (p :: rest) = p +:+ sep +:+ PyPath.join sep rest.
Proof. by destruct rest. Qed.

(** Joining the pieces of a split gives the string back. *)
Lemma join_split_from sep acc s :
  PyPath.join (String sep "") (PyStr.split_from sep acc s) = acc +:+ s.
Proof.
  revert acc. induction s as [|c s IH]; intros acc.
  - simpl. by rewrite str_app_nil_r.
  - cbn [PyStr.split_from]. destruct (Ascii.eqb_spec c sep) as [->|Hne].
    + rewrite join_cons by apply split_from_nonempty. by rewrite IH.
    + rewrite IH. by rewrite str_app_assoc.
Qed.

(** Splitting at a separator that is known to be there. *)
Lemma split_from_app sep acc a b :
  PyStr.split_from sep acc (a +:+ String sep b)
  = PyStr.split_from sep acc a ++ PyStr.split_from sep "" b.
Proof.
  revert acc. induction a as [|c a IH]; intros acc; simpl.
  - by rewrite Ascii.eqb_refl.
  - destruct (Ascii.eqb c sep); [by rewrite IH | apply IH].
Qed.

Lemma split_from_free sep acc s :
  sep ∉ list_ascii_of_string s → PyStr.split_from sep acc s = [acc +:+ s].
Proof.
  revert acc. induction s as [|c s IH]; intros acc Hfree; simpl.
  - by rewrite str_app_nil_r.
  - simpl in Hfree. apply not_elem_of_cons in Hfree as [Hne Hfree].
    destruct (Ascii.eqb_spec c sep) as [->|_]; [done|].
    rewrite IH by done. by rewrite str_app_assoc.
Qed.

(** For a module [package.leaf], [_get_app_package] gives the package
    back, and the label that [get_models] derives from the module name
    ([split('.')[-2]]) is the last segment of the package: the label that
    [has_app] and [_without_app] derive from the application name
    ([rpartition('.')[2]]). *)
Theorem app_package_of_module package leaf :
  dot_free leaf →
  _get_app_package (package +:+ "." +:+ leaf) = package ∧
  PyStr.split_penultimate (package +:+ "." +:+ leaf)
  = Some (PyStr.rpartition_tail package).
Proof.
  intros Hfree.
  assert (PyStr.split "." (package +:+ "." +:+ leaf)
          = PyStr.split "." package ++ [leaf]) as Hsplit.
  { unfold PyStr.split. change ("." +:+ leaf) with (String "." leaf).
    rewrite split_from_app. f_equal. by rewrite split_from_free. }
  split.
  - unfold _get_app_package. rewrite Hsplit, removelast_last.
    unfold PyStr.split. apply (join_split_from "." "" package).
  - unfold PyStr.split_penultimate, PyStr.rpartition_tail. rewrite Hsplit.
    rewrite rev_app_distr. simpl.
    destruct (PyStr.split "." package) as [|p rest] eqn:Hp using rev_ind.
    { by apply split_from_nonempty in Hp. }
    rewrite rev_app_distr. simpl. by rewrite last_last.
Qed.

Lemma app_package_of_module_witness :
  _get_app_package "proj.a.models" = "proj.a" ∧
  PyStr.split_penultimate "proj.a.models" = Some (PyStr.rpartition_tail "proj.a").
Proof.
  apply (app_package_of_module "proj.a" "models").
  apply (bool_decide_unpack _). vm_compute. exact I.
Defined.

(** ** The commands of a project *)

Lemma endswith_app suffix s :
  PyPath.endswith suffix s = true →
  s = PyPath.drop_last (String.length suffix) s +:+ suffix.
Proof.
  unfold PyPath.endswith, PyPath.drop_last.
  intros [k Hk]%bool_decide_eq_true.
  rewrite Hk, length_app.
  assert (String.length suffix = List.length (list_ascii_of_string suffix)) as ->.
  { clear. induction suffix as [|c r IH]; simpl; [done | by rewrite IH]. }
  replace (List.length k + List.length (list_ascii_of_string suffix)
           - List.length (list_ascii_of_string suffix))%nat with (List.length k) by lia.
  rewrite take_app_length, <- (string_of_list_ascii_of_string s), Hk.
  by rewrite string_of_list_ascii_app, !string_of_list_ascii_of_string.
Qed.

Lemma endswith_of_app name suffix :
  PyPath.endswith suffix (name +:+ suffix) = true ∧
  PyPath.drop_last (String.length suffix) (name +:+ suffix) = name.
Proof.
  unfold PyPath.endswith, PyPath.drop_last.
  rewrite list_ascii_of_string_app. split.
  - apply bool_decide_eq_true. by eexists.
  - rewrite length_app.
    assert (String.length suffix = List.length (list_ascii_of_string suffix)) as ->.
    { clear. induction suffix as [|c r IH]; simpl; [done | by rewrite IH]. }
    replace (List.length (list_ascii_of_string name) + List.length (list_ascii_of_string suffix)
             - List.length (list_ascii_of_string suffix))%nat
      with (List.length (list_ascii_of_string name)) by lia.
    by rewrite take_app_length, string_of_list_ascii_of_string.
Qed.

Section commands.
Variable env : Management.Env.

(** [find_commands] returns nothing when the commands directory cannot be
    listed; otherwise a name is returned exactly when the directory holds
    the file [name.py] and that file name does not start with an
    underscore. *)
Theorem find_commands_names management_dir :
  let command_dir := PyPath.path_join management_dir "commands" in
  (Management.listdir env command_dir = None →
   Management.find_commands env management_dir = []) ∧
  (∀ files, Management.listdir env command_dir = Some files →
   ∀ name, In name (Management.find_commands env management_dir) ↔
           In (name +:+ ".py") files ∧
           PyPath.startswith "_" (name +:+ ".py") = false).
Proof.
  intros command_dir. subst command_dir. unfold Management.find_commands. split.
  - by intros ->.
  - intros files ->. intros name. rewrite in_map_iff. split.
    + intros (f & <- & Hf). apply filter_In in Hf as [Hin Hkeep].
      apply andb_true_iff in Hkeep as [Hpublic Hpy].
      apply negb_true_iff in Hpublic.
      apply endswith_app in Hpy. simpl in Hpy.
      by rewrite <- Hpy.
    + intros [Hin Hpublic]. exists (name +:+ ".py"). split.
      * apply (endswith_of_app name ".py").
      * apply filter_In. split; [done|].
        rewrite Hpublic. simpl. apply (endswith_of_app name ".py").
Qed.

Lemma owned_by_lookup owner names c :
  Management.owned_by owner names !! c
  = if bool_decide (c ∈ names) then Some owner else None.
Proof.
  unfold Management.owned_by. induction names as [|n names IH]; simpl in *.
  - by rewrite lookup_empty.
  - rewrite lookup_insert. destruct (decide (n = c)) as [->|Hne].
    + rewrite bool_decide_eq_true_2; [done | left].
    + transitivity (if bool_decide (c ∈ names) then Some owner else None);
        [exact IH|].
      apply (f_equal (λ b : bool, if b then Some owner else None)).
      apply bool_decide_ext. rewrite elem_of_cons. naive_solver.
Qed.

Lemma update_from_apps_lookup configs : ∀ commands c,
  foldl (λ commands app_config,
           Management.owned_by app_config.1
             (Management.find_commands env
                (PyPath.path_join app_config.2 "management")) ∪ commands)
    commands (rev configs) !! c
  = match Management.first_owner env configs c with
    | Some owner => Some owner
    | None => commands !! c
    end.
Proof.
  induction configs as [|a configs IH]; intros commands c; simpl; [done|].
  rewrite foldl_app. simpl. rewrite lookup_union, owned_by_lookup, IH.
  case_bool_decide; simpl;
    by destruct (Management.first_owner env configs c), (commands !! c).
Qed.

(** Which application a command belongs to: with configured settings, the
    first app config, in the order of [apps.get_app_configs()], whose
    management directory defines the command, and the core only when no
    app config defines it; without configured settings, the core. The
    dictionary of the first call answers every later call, whatever the
    environment has become. *)
Theorem get_commands_precedence c :
  Management.compute_commands env !! c
  = (if Management.configured env then
       match Management.first_owner env (Management.app_configs_of env) c with
       | Some owner => Some owner
       | None =>
           if bool_decide
                (c ∈ Management.find_commands env (Management.core_path env))
           then Some "django.core" else None
       end
     else
       if bool_decide (c ∈ Management.find_commands env (Management.core_path env))
       then Some "django.core" else None) ∧
  ∀ later,
    (Management.get_commands (Management.get_commands None env).2 later).1
    = Management.compute_commands env.
Proof.
  split; [|done].
  unfold Management.compute_commands.
  destruct (Management.configured env); simpl.
  - by rewrite update_from_apps_lookup, owned_by_lookup.
  - apply owned_by_lookup.
Qed.

End commands.

Lemma find_commands_names_witness :
  In "runserver"
    (Management.find_commands CommandsDemo.env "/django/core/management") ∧
  Management.find_commands CommandsDemo.env "/srv/proj/c/management" = [].
Proof.
  destruct (find_commands_names CommandsDemo.env "/django/core/management")
    as [_ Hlisted].
  destruct (find_commands_names CommandsDemo.env "/srv/proj/c/management")
    as [Hmissing _].
  split.
  - apply (Hlisted ["__init__.py"; "runserver.py"; "shell.py"; "README"]).
    + vm_compute. reflexivity.
    + split; [right; left; reflexivity | vm_compute; reflexivity].
  - apply Hmissing. vm_compute. reflexivity.
Defined.

(** On the example project: an app command overrides the core command of
    the same name, the first app wins over the second, modules whose name
    starts with an underscore are no commands. *)
Lemma get_commands_on_example :
  let commands := Management.compute_commands CommandsDemo.env in
  commands !! "runserver" = Some "django.core" ∧
  commands !! "shell" = Some "proj.a" ∧
  commands !! "import_books" = Some "proj.a" ∧
  commands !! "_helpers" = None ∧
  commands !! "__init__" = None.
Proof. vm_compute. by repeat split. Qed.
